(** * Real-time chat back end: presence, relay, message log, conversation list

    A shallow embedding of the back end's three JavaScript files:

    - the socket server (presence map [activeUsers], rooms, relay handlers),
    - [routes/messages.js] (send, history, mark-read, unread count),
    - the conversation-list route ([Message.aggregate] pipeline).

    The Express handlers are functions from a database state to a reply
    and a new database state; the socket handlers are functions from the
    server state to a new server state and the list of emitted events. *)

From stdpp Require Import gmap strings list sorting.
From Stdlib Require Import ZArith Permutation Sorted.

Local Open Scope string_scope.
Local Open Scope list_scope.
Local Open Scope Z_scope.

(** ** JavaScript values used by the code *)

Module Js.

(** Truthiness of a string-valued property: the empty string is falsy,
    [undefined] (modelled as [None]) is falsy. *)
Definition truthy (v : option string) : bool :=
  match v with
  | None => false
  | Some s => negb (String.eqb s "")
  end.

(** The default comparison of [Array.prototype.sort]: elements are
    compared as strings by code units; [undefined] sorts last. *)
Definition before (x y : option string) : bool :=
  match x, y with
  | Some a, Some b => String.ltb a b
  | Some _, None => true
  | None, _ => false
  end.

(** Stable insertion: [x] goes after every element that does not sort
    strictly after it. *)
Fixpoint insert_sorted (x : option string) (l : list (option string))
  : list (option string) :=
  match l with
  | [] => [x]
  | y :: l' => if before x y then x :: y :: l' else y :: insert_sorted x l'
  end.

(** [arr.sort()] with the default comparator (stable). *)
Definition sort (l : list (option string)) : list (option string) :=
  fold_left (fun acc x => insert_sorted x acc) l [].

(** [arr.join(sep)]: [undefined] elements are rendered as the empty
    string. *)
Definition to_text (v : option string) : string :=
  match v with Some s => s | None => "" end.

Fixpoint join (sep : string) (l : list (option string)) : string :=
  match l with
  | [] => ""
  | [x] => to_text x
  | x :: l' => String.append (to_text x) (String.append sep (join sep l'))
  end.

End Js.

(** ** The socket server *)

Module Realtime.

(** Per-connection state: the [userId] property the join handler stores
    on the socket object, and the rooms the socket is in.  A socket is
    always a member of the room named by its own id. *)
Record Socket := {
  userId : option string;
  rooms : gset string
}.

(** [activeUsers] is the global [Map] from user id to socket id;
    [sockets] holds the currently connected sockets by [socket.id]. *)
Record Server := {
  activeUsers : gmap string string;
  sockets : gmap string Socket
}.

Record MessageData := {
  chatId : string;
  fields : list (string * string)
}.

Record TypingData := {
  typingChatId : string;
  isTyping : bool
}.

Inductive Payload :=
| User (userId : string)
| NewMessage (messageData : MessageData)
| UserTyping (userId : option string) (isTyping : bool).

(** One [emit]: the event name, its payload and the sockets it is
    delivered to. *)
Record Emission := {
  event : string;
  data : Payload;
  to : gset string
}.

Definition init : Server := {| activeUsers := ∅; sockets := ∅ |}.

(** [socket.broadcast]: every connected socket except the sender. *)
Definition broadcast (id : string) (s : Server) : gset string :=
  dom (sockets s) ∖ {[ id ]}.

(** The sockets currently in [room]. *)
Definition members (room : string) (s : Server) : gset string :=
  dom (filter (λ kv : string * Socket, room ∈ rooms kv.2) (sockets s)).

(** [socket.to(room)]: the members of [room] except the sender. *)
Definition to_room (id room : string) (s : Server) : gset string :=
  members room s ∖ {[ id ]}.

(** [io.on('connection', ...)] *)
Definition connection (id : string) (s : Server) : Server :=
  {| activeUsers := activeUsers s;
     sockets := <[ id := {| userId := None; rooms := {[ id ]} |} ]> (sockets s) |}.

(** [socket.on('join', userId => ...)] *)
Definition on_join (id u : string) (s : Server) : Server * list Emission :=
  match sockets s !! id with
  | None => (s, [])
  | Some sk =>
      ({| activeUsers := <[ u := id ]> (activeUsers s);
          sockets := <[ id := {| userId := Some u; rooms := rooms sk |} ]> (sockets s) |},
       [ {| event := "userOnline"; data := User u; to := broadcast id s |} ])
  end.

(** [socket.on('joinRoom', roomId => socket.join(roomId))] *)
Definition on_joinRoom (id roomId : string) (s : Server) : Server * list Emission :=
  match sockets s !! id with
  | None => (s, [])
  | Some sk =>
      ({| activeUsers := activeUsers s;
          sockets := <[ id := {| userId := userId sk; rooms := {[ roomId ]} ∪ rooms sk |} ]> (sockets s) |},
       [])
  end.

(** [socket.on('sendMessage', ...)] *)
Definition on_sendMessage (id : string) (messageData : MessageData) (s : Server)
  : Server * list Emission :=
  match sockets s !! id with
  | None => (s, [])
  | Some _ =>
      (s, [ {| event := "newMessage"; data := NewMessage messageData;
               to := to_room id (chatId messageData) s |} ])
  end.

(** [socket.on('typing', ...)] *)
Definition on_typing (id : string) (d : TypingData) (s : Server)
  : Server * list Emission :=
  match sockets s !! id with
  | None => (s, [])
  | Some sk =>
      (s, [ {| event := "userTyping"; data := UserTyping (userId sk) (isTyping d);
               to := to_room id (typingChatId d) s |} ])
  end.

(** [socket.on('disconnect', ...)]: the socket has left its rooms and
    is no longer connected when the handler runs. *)
Definition on_disconnect (id : string) (s : Server) : Server * list Emission :=
  match sockets s !! id with
  | None => (s, [])
  | Some sk =>
      let rest := delete id (sockets s) in
      match userId sk with
      | Some u =>
          if Js.truthy (Some u)
          then ({| activeUsers := delete u (activeUsers s); sockets := rest |},
                [ {| event := "userOffline"; data := User u; to := dom rest |} ])
          else ({| activeUsers := activeUsers s; sockets := rest |}, [])
      | None => ({| activeUsers := activeUsers s; sockets := rest |}, [])
      end
  end.

Inductive Event :=
| Connect (id : string)
| Join (id userId : string)
| JoinRoom (id roomId : string)
| SendMessage (id : string) (messageData : MessageData)
| Typing (id : string) (d : TypingData)
| Disconnect (id : string).

Definition step (e : Event) (s : Server) : Server * list Emission :=
  match e with
  | Connect id => (connection id s, [])
  | Join id u => on_join id u s
  | JoinRoom id r => on_joinRoom id r s
  | SendMessage id m => on_sendMessage id m s
  | Typing id d => on_typing id d s
  | Disconnect id => on_disconnect id s
  end.

(** Running a trace of events, collecting the emissions in order. *)
Fixpoint run (tr : list Event) (s : Server) : Server * list Emission :=
  match tr with
  | [] => (s, [])
  | e :: tr' =>
      let '(s1, out1) := step e s in
      let '(s2, out2) := run tr' s1 in
      (s2, out1 ++ out2)
  end.

(** The presence queries: [activeUsers.get] and [activeUsers.has]. *)
Definition resolve (u : string) (s : Server) : option string := activeUsers s !! u.
Definition isOnline (u : string) (s : Server) : bool := bool_decide (is_Some (activeUsers s !! u)).



End Realtime.

(** ** Documents and replies *)

Module Model.

(** Modelled from the spec: the [Message] schema ([models/Message] is
    not among the sources).  The fields are those the routes read and
    write; [createdAt] is assigned when the document is saved, [isRead]
    starts [false] and [readAt] is unset. *)
Record Message := {
  _id : string;
  sender : string;
  recipient : string;
  content : string;
  messageType : string;
  chatId : string;
  isRead : bool;
  readAt : option Z;
  createdAt : Z
}.

(** Modelled from the spec: the [User] documents ([models/User] is not
    among the sources), with the fields the routes select. *)
Record User := {
  userKey : string;
  username : string;
  avatar : string;
  isOnline : bool;
  lastSeen : Z
}.

(** What [populate(path, 'username avatar')] puts in place of an id. *)
Record UserRef := {
  refKey : string;
  refName : string;
  refAvatar : string
}.

(** A message document with its populated paths; a path whose user does
    not exist is [null] ([None]). *)
Record Populated := {
  doc : Message;
  senderDoc : option UserRef;
  recipientDoc : option UserRef
}.

(** The document built by [new Message({...})] from a request body, in
    which [recipient] and [content] may be [undefined]. *)
Record Draft := {
  draftId : string;
  draftSender : string;
  draftRecipient : option string;
  draftContent : option string;
  draftType : string;
  draftChatId : string
}.

(** One entry of the conversation list. *)
Module Chat.
Record t := {
  chatId : string;
  otherUser : option User;
  lastMessage : Populated;
  unreadCount : nat
}.
End Chat.

(** The JSON bodies the routes send. *)
Inductive Body :=
| MessageJson (message : Populated)
| MessagesJson (messages : list Populated)
| ChatsJson (chats : list Chat.t)
| CountJson (count : nat)
| InfoJson (message : string).

(** [res.status(code).json(body)]; [res.json] alone has status 200. *)
Record Reply := {
  status : nat;
  body : Body
}.

End Model.

(** ** The document store and its query layer *)

Module Mongoose.
Import Model.

(** The database: whether it can be reached, the message collection in
    insertion order (a save appends), and the user collection. *)
Record Db := {
  connected : bool;
  messages : list Message;
  users : list User
}.

Inductive Failure :=
| ValidationError (path : string)
| MongoError (reason : string)
| TypeError (reason : string).

(** An awaited operation: it throws, or returns a value and the new
    database state. *)
Definition Task (A : Type) : Type := Db -> Failure + (A * Db).

Definition ret {A} (a : A) : Task A := fun db => inr (a, db).
Definition throw {A} (e : Failure) : Task A := fun _ => inl e.
Definition bind {A B} (m : Task A) (k : A -> Task B) : Task B :=
  fun db => match m db with
            | inl e => inl e
            | inr (a, db') => k a db'
            end.

(** Every operation needs the database. *)
Definition online : Task unit :=
  fun db => if connected db then inr (tt, db)
            else inl (MongoError "not connected").

Definition read {A} (f : Db -> A) : Task A :=
  bind online (fun _ db => inr (f db, db)).

(** [try { body } catch (error) { handler }] around a route: a throw is
    answered by the handler on the state the route started from (no
    operation here writes before it throws). *)
Definition try_catch (m : Task Reply) (h : Failure -> Reply) (db : Db) : Reply * Db :=
  match m db with
  | inl e => (h e, db)
  | inr r => r
  end.

(** The store's sort: [sort_by key l] orders [l] by [key], greatest
    first.  The order of elements with equal keys is the engine's
    business; the code gives no second sort key. *)
Class Engine := { sort_by : forall A : Type, (A -> Z) -> list A -> list A }.

Definition descending {A} (key : A -> Z) : A -> A -> Prop :=
  fun a b => key b <= key a.

(** What every engine guarantees about its sort. *)
Definition conforming (E : Engine) : Prop :=
  forall (A : Type) (key : A -> Z) (l : list A),
    Permutation (sort_by A key l) l /\
    StronglySorted (descending key) (sort_by A key l).

(** Insertion into a list ordered greatest-first; [strict] tells
    whether the new element goes before ([false]) or after ([true]) the
    elements with the same key. *)
Fixpoint insert_desc {A} (strict : bool) (key : A -> Z) (x : A) (l : list A) : list A :=
  match l with
  | [] => [x]
  | y :: l' =>
      if (if strict then key y <? key x else key y <=? key x)
      then x :: y :: l'
      else y :: insert_desc strict key x l'
  end.

Definition insertion_sort {A} (strict : bool) (key : A -> Z) (l : list A) : list A :=
  fold_left (fun acc x => insert_desc strict key x acc) l [].

(** An engine whose sort is stable: equal keys keep insertion order. *)
Definition stable : Engine := {| sort_by := fun A => insertion_sort true |}.

(** An engine that lists equal keys latest-inserted first. *)
Definition latest_first : Engine := {| sort_by := fun A => insertion_sort false |}.

(** *** Queries on the message collection *)

Definition findUser (id : string) (us : list User) : option User :=
  List.find (fun u => String.eqb (userKey u) id) us.

Definition ref (id : string) (us : list User) : option UserRef :=
  match findUser id us with
  | Some u => Some {| refKey := userKey u; refName := username u; refAvatar := avatar u |}
  | None => None
  end.

Definition has_path (path : string) (paths : list string) : bool :=
  existsb (String.eqb path) paths.

(** The populated form of a document for the requested paths. *)
Definition populated (paths : list string) (us : list User) (m : Message) : Populated :=
  {| doc := m;
     senderDoc := if has_path "sender" paths then ref (sender m) us else None;
     recipientDoc := if has_path "recipient" paths then ref (recipient m) us else None |}.

(** A document none of whose paths is populated. *)
Definition plain (m : Message) : Populated :=
  {| doc := m; senderDoc := None; recipientDoc := None |}.

(** A [find] query under construction. *)
Record Query := {
  conditions : Message -> bool;
  paths : list string;
  sorted : bool;
  limitOpt : option Z;
  skipOpt : option Z
}.

Definition find (c : Message -> bool) : Query :=
  {| conditions := c; paths := []; sorted := false; limitOpt := None; skipOpt := None |}.

Definition populate (path : string) (q : Query) : Query :=
  {| conditions := conditions q; paths := path :: paths q; sorted := sorted q;
     limitOpt := limitOpt q; skipOpt := skipOpt q |}.

(** [.sort({ createdAt: -1 })] *)
Definition sort (q : Query) : Query :=
  {| conditions := conditions q; paths := paths q; sorted := true;
     limitOpt := limitOpt q; skipOpt := skipOpt q |}.

Definition limit (n : Z) (q : Query) : Query :=
  {| conditions := conditions q; paths := paths q; sorted := sorted q;
     limitOpt := Some n; skipOpt := skipOpt q |}.

Definition skip (n : Z) (q : Query) : Query :=
  {| conditions := conditions q; paths := paths q; sorted := sorted q;
     limitOpt := limitOpt q; skipOpt := Some n |}.

(** The documents a query selects: filter, sort, skip, then limit,
    whatever the order the builder calls were made in.  A limit of 0
    means no limit and a negative limit is its absolute value. *)
Definition select `{Engine} (q : Query) (docs : list Message) : list Message :=
  let matched := List.filter (conditions q) docs in
  let ordered := if sorted q then sort_by Message createdAt matched else matched in
  let skipped := match skipOpt q with
                 | Some k => skipn (Z.to_nat k) ordered
                 | None => ordered
                 end in
  match limitOpt q with
  | Some n => if n =? 0 then skipped else firstn (Z.abs_nat n) skipped
  | None => skipped
  end.

(** Awaiting a query.  The server rejects a negative skip. *)
Definition exec `{Engine} (q : Query) : Task (list Populated) :=
  bind online (fun _ db =>
    if match skipOpt q with Some k => k <? 0 | None => false end
    then inl (MongoError "skip value must be non-negative")
    else inr (map (populated (paths q) (users db)) (select q (messages db)), db)).

(** [Message.updateMany(filter, { isRead: true, readAt: now })]; the
    result is the number of documents modified. *)
Definition markOne (now : Z) (m : Message) : Message :=
  {| _id := _id m; sender := sender m; recipient := recipient m;
     content := content m; messageType := messageType m; chatId := chatId m;
     isRead := true; readAt := Some now; createdAt := createdAt m |}.

Definition updateMany (c : Message -> bool) (now : Z) : Task nat :=
  bind online (fun _ db =>
    inr (length (List.filter c (messages db)),
         {| connected := connected db;
            messages := map (fun m => if c m then markOne now m else m) (messages db);
            users := users db |})).

(** [Message.countDocuments(filter)] *)
Definition countDocuments (c : Message -> bool) : Task nat :=
  read (fun db => length (List.filter c (messages db))).

(** Modelled from the spec: the schema's validation of a new document
    ([models/Message] is not among the sources).  [recipient] and
    [content] are required; the result is the path that fails, or the
    two values. *)
Definition validate (d : Draft) : string + string * string :=
  match draftRecipient d, draftContent d with
  | None, _ => inl "recipient"
  | Some _, None => inl "content"
  | Some r, Some c => inr (r, c)
  end.

(** [message.save()]: validation first, then the insert, which appends
    the document with its [createdAt]. *)
Definition save (now : Z) (d : Draft) : Task Message :=
  match validate d with
  | inl path => throw (ValidationError path)
  | inr (r, c) =>
      let m := {| _id := draftId d; sender := draftSender d; recipient := r;
                  content := c; messageType := draftType d;
                  chatId := draftChatId d; isRead := false; readAt := None;
                  createdAt := now |} in
      bind online (fun _ db =>
        inr (m, {| connected := connected db;
                   messages := messages db ++ [m];
                   users := users db |}))
  end.

(** [message.populate(path, 'username avatar')] on a document. *)
Definition populateDoc (path : string) (p : Populated) : Task Populated :=
  read (fun db =>
    {| doc := doc p;
       senderDoc := if String.eqb path "sender" then ref (sender (doc p)) (users db)
                    else senderDoc p;
       recipientDoc := if String.eqb path "recipient" then ref (recipient (doc p)) (users db)
                       else recipientDoc p |}).

(** [Message.findById(id).populate(...).populate(...)] *)
Definition findById (id : string) (paths : list string) : Task (option Populated) :=
  read (fun db =>
    match List.find (fun m => String.eqb (_id m) id) (messages db) with
    | Some m => Some (populated paths (users db) m)
    | None => None
    end).

(** [User.findById(id).select('username avatar isOnline lastSeen')] *)
Definition findUserById (id : string) : Task (option User) :=
  read (fun db => findUser id (users db)).

Notation "'await' x <- m ;; k" := (bind m (fun x => k))
  (at level 10, x name, m at level 99, k at level 200, only parsing).

End Mongoose.

(** ** [routes/messages.js] *)

Module Messages.
Import Model Mongoose.

(** [req.body] of the send route; an absent field is [undefined]. *)
Record SendBody := {
  bodyRecipient : option string;
  bodyContent : option string;
  bodyType : option string
}.

(** [req.query] of the history route.  The values are taken as the
    integers they denote; an absent one is [undefined]. *)
Record PageQuery := {
  page : option Z;
  limit : option Z
}.

(** [res.status(500).json({ message: 'Server error' })] *)
Definition server_error : Reply :=
  {| status := 500; body := InfoJson "Server error" |}.

(** [[a, b].sort().join('_')] *)
Definition chatIdOf (a b : option string) : string :=
  Js.join "_" (Js.sort [a; b]).

Definition in_chat (chat : string) (m : Message) : bool :=
  String.eqb (chatId m) chat.

(** [router.post('/')]: send a message.  [now] is the clock at the
    save, [oid] the id generated for the new document and [me] is
    [req.user._id]. *)
Definition post (now : Z) (oid me : string) (b : SendBody) : Db -> Reply * Db :=
  try_catch
    (let recipient := bodyRecipient b in
     let content := bodyContent b in
     let messageType := match bodyType b with Some t => t | None => "text" end in
     let chatId := chatIdOf (Some me) recipient in
     let message := {| draftId := oid; draftSender := me; draftRecipient := recipient;
                       draftContent := content; draftType := messageType;
                       draftChatId := chatId |} in
     await m <- save now message ;;
     await p <- populateDoc "sender" (plain m) ;;
     await p <- populateDoc "recipient" p ;;
     ret {| status := 201; body := MessageJson p |})
    (fun _ => server_error).

(** The query of the history route. *)
Definition chatQuery (chat : string) (page limit : Z) : Query :=
  skip ((page - 1) * limit)
    (Mongoose.limit (limit * 1)
      (sort (populate "recipient" (populate "sender" (find (in_chat chat)))))).

(** [router.get('/chat/:userId')]: the history of the conversation
    with [userId]. *)
Definition getChat `{Engine} (me userId : string) (q : PageQuery) : Db -> Reply * Db :=
  try_catch
    (let page := match page q with Some p => p | None => 1 end in
     let limit := match limit q with Some l => l | None => 50 end in
     let chatId := chatIdOf (Some me) (Some userId) in
     await messages <- exec (chatQuery chatId page limit) ;;
     ret {| status := 200; body := MessagesJson (rev messages) |})
    (fun _ => server_error).

(** The filter of the mark-read update. *)
Definition unreadIn (chat me : string) (m : Message) : bool :=
  String.eqb (chatId m) chat && String.eqb (recipient m) me && Bool.eqb (isRead m) false.

(** [router.put('/read/:chatId')]: mark messages as read.  [now] is
    [new Date()]. *)
Definition putRead (now : Z) (me chat : string) : Db -> Reply * Db :=
  try_catch
    (await _ <- updateMany (unreadIn chat me) now ;;
     ret {| status := 200; body := InfoJson "Messages marked as read" |})
    (fun _ => server_error).

(** [router.get('/unread/count')] *)
Definition getUnreadCount (me : string) : Db -> Reply * Db :=
  try_catch
    (await count <- countDocuments
                (fun m => String.eqb (recipient m) me && Bool.eqb (isRead m) false) ;;
     ret {| status := 200; body := CountJson count |})
    (fun _ => server_error).

(** The message documents of a history reply, and the history of the
    conversation of [me] with [userId] for a given page and limit. *)
Definition docsOf (r : Reply) : list Message :=
  match body r with
  | MessagesJson l => map doc l
  | _ => []
  end.

Definition history `{Engine} (me userId : string) (p l : Z) (db : Db) : list Message :=
  docsOf (fst (getChat me userId {| page := Some p; limit := Some l |} db)).


(** Oldest first by [createdAt]. *)
Definition ascending (l : list Message) : Prop :=
  StronglySorted (fun a b => createdAt a <= createdAt b) l.

End Messages.

(** ** The conversation-list route *)

Module Chats.
Import Model Mongoose.

(** A document produced by the [$group] stage. *)
Module Group.
Record t := {
  _id : string;
  lastMessage : Message;
  unreadCount : nat
}.
End Group.

(** [$match]: messages sent by or addressed to the user. *)
Definition matching (me : string) (m : Message) : bool :=
  String.eqb (sender m) me || String.eqb (recipient m) me.

(** The [$cond] summed into [unreadCount]. *)
Definition cond (me : string) (m : Message) : nat :=
  if String.eqb (recipient m) me && Bool.eqb (isRead m) false then 1%nat else 0%nat.

(** The group a document opens, with itself as [$first], and a group
    after one more document of its conversation. *)
Definition opened (me : string) (m : Message) : Group.t :=
  {| Group._id := chatId m; Group.lastMessage := m; Group.unreadCount := cond me m |}.

Definition added (me : string) (m : Message) (g : Group.t) : Group.t :=
  {| Group._id := Group._id g; Group.lastMessage := Group.lastMessage g;
     Group.unreadCount := (Group.unreadCount g + cond me m)%nat |}.

(** One document entering the [$group] stage: it adds to the group of
    its [chatId], or opens that group. *)
Fixpoint accumulate (me : string) (m : Message) (gs : list Group.t) : list Group.t :=
  match gs with
  | [] => [opened me m]
  | g :: gs' =>
      if String.eqb (Group._id g) (chatId m)
      then added me m g :: gs'
      else g :: accumulate me m gs'
  end.

Definition group (me : string) (docs : list Message) : list Group.t :=
  fold_left (fun gs m => accumulate me m gs) docs [].

(** [Message.aggregate([$match, $sort, $group, $sort])] *)
Definition pipeline `{Engine} (me : string) (docs : list Message) : list Group.t :=
  sort_by Group.t (fun g => createdAt (Group.lastMessage g))
    (group me (sort_by Message createdAt (List.filter (matching me) docs))).

Definition aggregate `{Engine} (me : string) : Task (list Group.t) :=
  read (fun db => pipeline me (messages db)).

(** The body of the [messages.map(async chat => ...)] callback.
    Reading [lastMessage.sender._id] of a missing document, or of a
    document whose populated path is [null], throws. *)
Definition summary (me : string) (chat : Group.t) : Task Chat.t :=
  await found <- findById (Model._id (Group.lastMessage chat)) ["recipient"; "sender"] ;;
  match found with
  | None => throw (TypeError "lastMessage is null")
  | Some lastMessage =>
      match senderDoc lastMessage with
      | None => throw (TypeError "lastMessage.sender is null")
      | Some s =>
          if String.eqb (refKey s) me
          then match recipientDoc lastMessage with
               | None => throw (TypeError "lastMessage.recipient is null")
               | Some r =>
                   await otherUser <- findUserById (refKey r) ;;
                   ret {| Chat.chatId := Group._id chat; Chat.otherUser := otherUser;
                          Chat.lastMessage := lastMessage;
                          Chat.unreadCount := Group.unreadCount chat |}
               end
          else await otherUser <- findUserById (refKey s) ;;
               ret {| Chat.chatId := Group._id chat; Chat.otherUser := otherUser;
                      Chat.lastMessage := lastMessage;
                      Chat.unreadCount := Group.unreadCount chat |}
      end
  end.

(** [Promise.all]: the results in the order of the tasks. *)
Fixpoint all {A} (tasks : list (Task A)) : Task (list A) :=
  match tasks with
  | [] => ret []
  | t :: ts => await a <- t ;; await rest <- all ts ;; ret (a :: rest)
  end.

(** [router.get('/')]: the conversations of the current user. *)
Definition getChats `{Engine} (me : string) : Db -> Reply * Db :=
  try_catch
    (await messages <- aggregate me ;;
     await chats <- all (map (summary me) messages) ;;
     ret {| status := 200; body := ChatsJson chats |})
    (fun _ => Messages.server_error).

(** The entries of a conversation-list reply. *)
Definition chatsOf (r : Reply) : list Chat.t :=
  match body r with
  | ChatsJson l => l
  | _ => []
  end.

(** The last messages of the conversation list of [me], in order. *)
Definition lastMessages `{Engine} (me : string) (db : Db) : list Message :=
  map (fun s => doc (Chat.lastMessage s)) (chatsOf (fst (getChats me db))).

(** Every message's sender and recipient is a document of the user
    collection. *)
Definition referenced (db : Db) : Prop :=
  ∀ m, m ∈ messages db →
       is_Some (findUser (sender m) (users db)) ∧
       is_Some (findUser (recipient m) (users db)).

(** What the groups record about the documents [l] they were built
    from: one group per conversation, holding its first document and the
    number of its documents counted by [cond]. *)
Definition grouped (me : string) (l : list Message) (gs : list Group.t) : Prop :=
  NoDup (map Group._id gs) ∧
  (∀ g, g ∈ gs →
        (∃ l1 l2, l = l1 ++ Group.lastMessage g :: l2 ∧
                  chatId (Group.lastMessage g) = Group._id g ∧
                  ∀ x, x ∈ l1 → chatId x ≠ Group._id g) ∧
        Group.unreadCount g
        = length (List.filter (Messages.unreadIn (Group._id g) me) l)) ∧
  (∀ m, m ∈ l → chatId m ∈ map Group._id gs).

End Chats.

(** ** The mounted routes as one server *)

Module Router.
Import Model Mongoose.

(** An authenticated request to one of the mounted message and chat
    routes; [me] is [req.user._id]. *)
Inductive Request :=
| Send (now : Z) (oid me : string) (b : Messages.SendBody)
| History (me userId : string) (q : Messages.PageQuery)
| MarkRead (now : Z) (me chat : string)
| UnreadCount (me : string)
| ListChats (me : string).

Definition handle `{Engine} (r : Request) : Db -> Reply * Db :=
  match r with
  | Send now oid me b => Messages.post now oid me b
  | History me userId q => Messages.getChat me userId q
  | MarkRead now me chat => Messages.putRead now me chat
  | UnreadCount me => Messages.getUnreadCount me
  | ListChats me => Chats.getChats me
  end.

(** The database after a sequence of requests. *)
Fixpoint serve `{Engine} (rs : list Request) (db : Db) : Db :=
  match rs with
  | [] => db
  | r :: rs' => serve rs' (snd (handle r db))
  end.

(** The number in a count reply, and the unread count a user is
    given. *)
Definition countOf (r : Reply) : nat :=
  match body r with
  | CountJson n => n
  | _ => 0%nat
  end.

Definition unread (me : string) (db : Db) : nat :=
  countOf (fst (Messages.getUnreadCount me db)).

(** The filter of the unread-count route. *)
Definition unreadFor (me : string) (m : Message) : bool :=
  String.eqb (recipient m) me && Bool.eqb (isRead m) false.

(** [m'] is what a later state keeps of [m]: the same document, except
    that an unread message may have become read. *)
Definition kept (m m' : Message) : Prop :=
  _id m' = _id m ∧ sender m' = sender m ∧ recipient m' = recipient m ∧
  content m' = content m ∧ messageType m' = messageType m ∧
  chatId m' = chatId m ∧ createdAt m' = createdAt m ∧
  (isRead m = true ∨ isRead m' = false → m' = m).

(** The message log of [db'] continues the one of [db]: the old
    messages are kept, in place, and new ones come after them. *)
Definition continues (db db' : Db) : Prop :=
  users db' = users db ∧ connected db' = connected db ∧
  ∃ old rest, messages db' = old ++ rest ∧ Forall2 kept (messages db) old.

(** Every stored message carries the conversation key of its sender
    and recipient. *)
Definition keyed (db : Db) : Prop :=
  ∀ m, m ∈ messages db →
       chatId m = Messages.chatIdOf (Some (sender m)) (Some (recipient m)).

(** The conversation-list entry built from a group when its last
    message and that message's users are found. *)
Definition entry (me : string) (us : list User) (g : Chats.Group.t) : Chat.t :=
  {| Chat.chatId := Chats.Group._id g;
     Chat.otherUser :=
       findUser (if String.eqb (sender (Chats.Group.lastMessage g)) me
                 then recipient (Chats.Group.lastMessage g)
                 else sender (Chats.Group.lastMessage g)) us;
     Chat.lastMessage := populated ["recipient"; "sender"] us (Chats.Group.lastMessage g);
     Chat.unreadCount := Chats.Group.unreadCount g |}.

(** An id without the separator used in conversation keys. *)
Fixpoint plainId (s : string) : bool :=
  match s with
  | EmptyString => true
  | String c s' => negb (String.eqb (String c EmptyString) "_") && plainId s'
  end.

End Router.

(** ** The client: [utils/api.jsx] *)

Module Api.
Import Model.

(** The parsed body of a response as the client reads it: its [message]
    and [errors] properties (absent when [None]; each error item's [msg]
    may be absent too) and the body itself. *)
Record Data (P : Type) := {
  message : option string;
  errors : option (list (option string));
  payload : P
}.
Arguments message {P} _.
Arguments errors {P} _.
Arguments payload {P} _.

(** The [data] an [ApiError] is built with: the parsed body of the
    response, or the object [{ originalError: error }], which has no
    [message] and no [errors]. *)
Inductive ErrorData (P : Type) :=
| FromBody (d : Data P)
| OriginalError (message : option string).
Arguments FromBody {P} _.
Arguments OriginalError {P} _.

(** [new ApiError(message, status, data)] *)
Record ApiError (P : Type) := {
  errMessage : string;
  errStatus : nat;
  errData : ErrorData P
}.
Arguments errMessage {P} _.
Arguments errStatus {P} _.
Arguments errData {P} _.

(** [this.data.errors] *)
Definition dataErrors {P} (e : ApiError P) : option (list (option string)) :=
  match errData e with
  | FromBody d => errors d
  | OriginalError _ => None
  end.

(** [isAuthError()] *)
Definition isAuthError {P} (e : ApiError P) : bool :=
  Nat.eqb (errStatus e) 401 || Nat.eqb (errStatus e) 403.

(** [isValidationError()], as a truth value: an [errors] array counts
    even when it is empty. *)
Definition isValidationError {P} (e : ApiError P) : bool :=
  Nat.eqb (errStatus e) 400 &&
  match dataErrors e with Some _ => true | None => false end.

(** [getValidationErrors()] *)
Definition getValidationErrors {P} (e : ApiError P) : list (option string) :=
  if isValidationError e then default [] (dataErrors e) else [].

(** [apiHelpers.formatErrorMessage(error)] for an [ApiError]. *)
Definition formatErrorMessage {P} (e : ApiError P) : string :=
  if isValidationError e then Js.join ", " (getValidationErrors e) else errMessage e.

(** What [fetch] and [response.json()] come to: a rejection with the
    error's [message], or a response with its status and parsed body
    ([None] for [null]). *)
Inductive Fetched (P : Type) :=
| Rejected (message : option string)
| Responded (status : nat) (data : option (Data P)).
Arguments Rejected {P} _.
Arguments Responded {P} _ _.

(** [response.ok] *)
Definition ok (status : nat) : bool := Nat.leb 200 status && Nat.leb status 299.

(** [a || b] on an optional string. *)
Definition or_else (a : option string) (b : string) : string :=
  if Js.truthy a then Js.to_text a else b.

(** The message of the [TypeError] raised by reading a property of
    [null]. *)
Definition nullMessage : string := "Cannot read properties of null (reading 'message')".

(** The error the [catch] of [request] throws for an error that is not
    an [ApiError]. *)
Definition networkError {P} (m : option string) : ApiError P :=
  {| errMessage := or_else m "Network error occurred"; errStatus := 0;
     errData := OriginalError m |}.

(** [ApiService.request] after the fetch: the result
    [{ success: true, data, status }] or the [ApiError] thrown. *)
Definition request {P} (f : Fetched P) : ApiError P + option (Data P) * nat :=
  match f with
  | Rejected m => inl (networkError m)
  | Responded status data =>
      if ok status then inr (data, status)
      else match data with
           | Some d =>
               inl {| errMessage := or_else (message d) "Request failed";
                      errStatus := status; errData := FromBody d |}
           | None => inl (networkError (Some nullMessage))
           end
  end.

(** *** [apiHelpers.retryRequest] *)

(** How a retried request ends, how many times the API was called and
    for how long the loop waited in all. *)
Inductive Settled (P R : Type) :=
| Returned (result : R)
| Thrown (error : option (ApiError P)).
Arguments Returned {P R} _.
Arguments Thrown {P R} _.

Record Retried (P R : Type) := {
  settled : Settled P R;
  calls : nat;
  waited : Z
}.
Arguments settled {P R} _.
Arguments calls {P R} _.
Arguments waited {P R} _.

(** The [for] loop from iteration [i] on; [apiCall j] is what the
    [j]-th call comes to and [fuel] counts the iterations left. *)
Fixpoint retryLoop {P R} (apiCall : nat -> ApiError P + R) (maxRetries delay : Z)
    (fuel i : nat) (slept : Z) (lastError : option (ApiError P)) : Retried P R :=
  match fuel with
  | O => {| settled := Thrown lastError; calls := i; waited := slept |}
  | S fuel' =>
      match apiCall i with
      | inr result => {| settled := Returned result; calls := S i; waited := slept |}
      | inl error =>
          if isAuthError error || (Z.of_nat i =? maxRetries - 1)
          then {| settled := Thrown (Some error); calls := S i; waited := slept |}
          else retryLoop apiCall maxRetries delay fuel' (S i)
                 (slept + delay * (Z.of_nat i + 1)) (Some error)
      end
  end.

(** [retryRequest(apiCall, maxRetries = 3, delay = 1000)] *)
Definition retryRequest {P R} (apiCall : nat -> ApiError P + R)
    (maxRetries delay : option Z) : Retried P R :=
  let maxRetries := default 3 maxRetries in
  let delay := default 1000 delay in
  retryLoop apiCall maxRetries delay (Z.to_nat maxRetries) 0 0 None.

(** *** [apiHelpers.getCachedData] and [clearCache] *)

Record Entry (D : Type) := {
  data : D;
  timestamp : Z
}.
Arguments data {D} _.
Arguments timestamp {D} _.

(** The outcome of [getCachedData]: the value returned or the error
    thrown, whether [apiCall] was called, and the cache afterwards. *)
Record Cached (D X : Type) := {
  got : X + D;
  called : bool;
  cache : gmap string (Entry D)
}.
Arguments got {D X} _.
Arguments called {D X} _.
Arguments cache {D X} _.

(** [getCachedData(key, apiCall, ttl = 300000)] at time [now], where
    [apiCall] comes to [result] if it is called. *)
Definition getCachedData {D X} (key : string) (result : X + D) (ttl : option Z)
    (now : Z) (c : gmap string (Entry D)) : Cached D X :=
  let ttl := default 300000 ttl in
  let cached := c !! key in
  match cached with
  | Some e =>
      if now - timestamp e <? ttl
      then {| got := inr (data e); called := false; cache := c |}
      else match result with
           | inr d => {| got := inr d; called := true;
                         cache := <[ key := {| data := d; timestamp := now |} ]> c |}
           | inl error => {| got := inr (data e); called := true; cache := c |}
           end
  | None =>
      match result with
      | inr d => {| got := inr d; called := true;
                    cache := <[ key := {| data := d; timestamp := now |} ]> c |}
      | inl error => {| got := inl error; called := true; cache := c |}
      end
  end.

(** [clearCache(key)] *)
Definition clearCache {D} (key : option string) (c : gmap string (Entry D))
  : gmap string (Entry D) :=
  if Js.truthy key then delete (Js.to_text key) c else ∅.

(** *** The mock socket of [createSocketConnection] *)

(** Callbacks are told apart by identity. *)
Record Socket := {
  connected : bool;
  listeners : gmap string (list nat)
}.

Definition created : Socket := {| connected := false; listeners := ∅ |}.






(** *** The client against the send route *)

(** A reply of the back end as the client's [fetch] receives it. *)
Definition received (r : Reply) : Fetched Body :=
  Responded (status r)
    (Some {| message := match body r with InfoJson m => Some m | _ => None end;
             errors := None;
             payload := body r |}).

(** [messagesApi.createMessage(messageData)] answered by the send
    route. *)
Definition createMessage (now : Z) (oid me : string) (messageData : Messages.SendBody)
    (db : Mongoose.Db) : ApiError Body + option (Data Body) * nat :=
  request (received (fst (Messages.post now oid me messageData db))).

End Api.

(** ** Sample data *)

Module Sample.
Import Model Mongoose.

Definition user (id : string) : User :=
  {| userKey := id; username := id; avatar := ""; isOnline := false; lastSeen := 0 |}.

(** A stored message from [from] to [to], saved at time [t]. *)
Definition message (id from to text : string) (t : Z) : Message :=
  {| _id := id; sender := from; recipient := to; content := text;
     messageType := "text"; chatId := Messages.chatIdOf (Some from) (Some to);
     isRead := false; readAt := None; createdAt := t |}.

Definition m1 : Message := message "m1" "a" "b" "hi" 1.
Definition m2 : Message := message "m2" "b" "a" "hello" 2.

(** Two messages saved at the same instant, [t1] before [t2]. *)
Definition t1 : Message := message "t1" "a" "b" "first" 5.
Definition t2 : Message := message "t2" "a" "b" "second" 5.

Definition two : Db :=
  {| connected := true; messages := [m1; m2]; users := [user "a"; user "b"] |}.

Definition tied : Db :=
  {| connected := true; messages := [t1; t2]; users := [user "a"; user "b"] |}.

Definition down : Db :=
  {| connected := false; messages := [m1; m2]; users := [user "a"; user "b"] |}.

End Sample.

(** ** Further sample data *)

Module Cases.
Import Model Mongoose.

(** The two sample messages when the user document of [b] is gone. *)
Definition orphaned : Db :=
  {| connected := true; messages := [Sample.m1; Sample.m2]; users := [Sample.user "a"] |}.

End Cases.

(** * Properties *)

(** ** Presence and relay *)

Section RealtimeFacts.
Import Realtime.

Lemma truthy_nonempty (u : string) : u ≠ "" → Js.truthy (Some u) = true.
Proof.
  intros Hu. unfold Js.truthy.
  destruct (String.eqb u "") eqn:E; [|done].
  apply String.eqb_eq in E. done.
Qed.

Lemma on_join_state (id u : string) (s : Server) (sk : Socket) :
  sockets s !! id = Some sk →
  on_join id u s =
    ({| activeUsers := <[ u := id ]> (activeUsers s);
        sockets := <[ id := {| userId := Some u; rooms := rooms sk |} ]> (sockets s) |},
     [ {| event := "userOnline"; data := User u; to := broadcast id s |} ]).
Proof. intros H. unfold on_join. by rewrite H. Qed.

Lemma on_disconnect_user (id u : string) (s : Server) (sk : Socket) :
  sockets s !! id = Some sk → userId sk = Some u → u ≠ "" →
  on_disconnect id s =
    ({| activeUsers := delete u (activeUsers s); sockets := delete id (sockets s) |},
     [ {| event := "userOffline"; data := User u; to := dom (delete id (sockets s)) |} ]).
Proof.
  intros H Hu Hne. unfold on_disconnect. rewrite H, Hu.
  by rewrite (truthy_nonempty u Hne).
Qed.

Lemma elem_of_members (t room : string) (s : Server) :
  t ∈ members room s ↔ ∃ sk, sockets s !! t = Some sk ∧ room ∈ rooms sk.
Proof.
  unfold members. rewrite elem_of_dom. split.
  - intros [sk Hsk]. apply map_lookup_filter_Some in Hsk as [H1 H2]. eauto.
  - intros (sk & H1 & H2). exists sk. by apply map_lookup_filter_Some.
Qed.

Lemma elem_of_to_room (t id room : string) (s : Server) :
  t ∈ to_room id room s ↔ t ≠ id ∧ ∃ sk, sockets s !! t = Some sk ∧ room ∈ rooms sk.
Proof.
  unfold to_room. rewrite elem_of_difference, elem_of_members, elem_of_singleton.
  tauto.
Qed.

(** [socket.join(room)] makes the socket a member of the room. *)
Lemma joinRoom_member (id room : string) (s : Server) :
  is_Some (sockets s !! id) → id ∈ members room (on_joinRoom id room s).1.
Proof.
  intros [sk Hsk]. unfold on_joinRoom. rewrite Hsk. simpl.
  apply elem_of_members. eexists. simpl. rewrite lookup_insert_eq.
  split; [done|]. simpl. set_solver.
Qed.



(** C1, as stated, fails: with [alice] joined on [s1] and then on
    [s2], the disconnect of the superseded [s1] removes the entry, so
    [alice] no longer resolves to [s2]. *)
Lemma superseded_disconnect_evicts :
  let s := (run [Connect "s1"; Connect "s2"; Join "s1" "alice"; Join "s2" "alice"]
              init).1 in
  resolve "alice" s = Some "s2" ∧
  resolve "alice" (on_disconnect "s1" s).1 = None ∧
  resolve "alice" (on_disconnect "s1" s).1 ≠ Some "s2".
Proof. vm_compute. split; [done|]. split; [done|]. discriminate. Qed.

(** C1 (amended): presence removal is keyed by the [userId] stored on
    the disconnecting connection.  For a non-empty user id [u] and
    connected handles [h1 ≠ h2]: after [join(u, h1)] and [leave(h1)],
    [u] does not resolve; after [join(u, h1)] then [join(u, h2)], [u]
    resolves to [h2]; and a following [leave(h1)] removes the entry of
    [u], so [u] does not resolve any more. *)
Theorem leave_keyed_by_stored_userId (s : Server) (u h1 h2 : string) :
  u ≠ "" → h1 ≠ h2 →
  is_Some (sockets s !! h1) → is_Some (sockets s !! h2) →
  resolve u (run [Join h1 u; Disconnect h1] s).1 = None ∧
  resolve u (run [Join h1 u; Join h2 u] s).1 = Some h2 ∧
  resolve u (run [Join h1 u; Join h2 u; Disconnect h1] s).1 = None.
Proof.
  intros Hu Hh [sk1 H1] [sk2 H2].
  cbn [run step]. rewrite (on_join_state h1 u s sk1 H1).
  set (s1 := {| activeUsers := <[u:=h1]> (activeUsers s);
                sockets := <[h1:={| userId := Some u; rooms := rooms sk1 |}]> (sockets s) |}).
  assert (E1 : sockets s1 !! h1 = Some {| userId := Some u; rooms := rooms sk1 |})
    by (subst s1; cbn [sockets]; apply lookup_insert_eq).
  assert (E2 : sockets s1 !! h2 = Some sk2)
    by (subst s1; cbn [sockets]; by rewrite lookup_insert_ne).
  rewrite (on_disconnect_user h1 u s1 _ E1 eq_refl Hu).
  rewrite (on_join_state h2 u s1 sk2 E2).
  set (s2 := {| activeUsers := <[u:=h2]> (activeUsers s1);
                sockets := <[h2:={| userId := Some u; rooms := rooms sk2 |}]> (sockets s1) |}).
  assert (E3 : sockets s2 !! h1 = Some {| userId := Some u; rooms := rooms sk1 |})
    by (subst s2; cbn [sockets]; by rewrite lookup_insert_ne).
  rewrite (on_disconnect_user h1 u s2 _ E3 eq_refl Hu).
  unfold resolve. cbn [fst activeUsers].
  split; [apply lookup_delete_eq|].
  split; [apply lookup_insert_eq|apply lookup_delete_eq].
Qed.

Lemma leave_keyed_by_stored_userId_witness :
  let s := (run [Connect "s1"; Connect "s2"] init).1 in
  resolve "alice" (run [Join "s1" "alice"; Disconnect "s1"] s).1 = None ∧
  resolve "alice" (run [Join "s1" "alice"; Join "s2" "alice"] s).1 = Some "s2" ∧
  resolve "alice" (run [Join "s1" "alice"; Join "s2" "alice"; Disconnect "s1"] s).1 = None.
Proof.
  apply (leave_keyed_by_stored_userId _ "alice" "s1" "s2").
  - discriminate.
  - discriminate.
  - vm_compute. eauto.
  - vm_compute. eauto.
Defined.

(** C9: a [sendMessage] or [typing] event from a connected socket is
    emitted once, to exactly the sockets that are in the room named by
    the event's [chatId] other than the publishing socket, and leaves
    the server state unchanged; the relayed message is the received
    [messageData], and the typing payload carries the [userId] stored
    on the publishing socket (the one of its latest [join]) together
    with the received [isTyping]; and any other connected socket that
    has joined the room is among the receivers. *)
Theorem relay_excludes_sender (s : Server) (h : string) (sk : Socket)
    (m : MessageData) (d : TypingData) :
  sockets s !! h = Some sk →
  (∃ e, on_sendMessage h m s = (s, [e]) ∧
        event e = "newMessage" ∧ data e = NewMessage m ∧ (h ∉ to e) ∧
        ∀ t, t ∈ to e ↔ t ≠ h ∧ t ∈ members (chatId m) s) ∧
  (∃ e, on_typing h d s = (s, [e]) ∧
        event e = "userTyping" ∧ data e = UserTyping (userId sk) (isTyping d) ∧
        (h ∉ to e) ∧
        ∀ t, t ∈ to e ↔ t ≠ h ∧ t ∈ members (typingChatId d) s) ∧
  (∀ u, ∃ e, on_typing h d (fst (on_join h u s)) = (fst (on_join h u s), [e]) ∧
             data e = UserTyping (Some u) (isTyping d)) ∧
  (∀ t, t ≠ h → is_Some (sockets s !! t) →
        ∃ e, on_sendMessage h m (fst (on_joinRoom t (chatId m) s))
               = (fst (on_joinRoom t (chatId m) s), [e]) ∧
             t ∈ to e).
Proof.
  intros H. split; [|split; [|split]].
  - unfold on_sendMessage. rewrite H. eexists. split; [done|]. cbn [event data to].
    split; [done|]. split; [done|].
    split; [rewrite elem_of_to_room; tauto|].
    intros t. rewrite elem_of_to_room, elem_of_members. tauto.
  - unfold on_typing. rewrite H. eexists. split; [done|]. cbn [event data to].
    split; [done|]. split; [done|].
    split; [rewrite elem_of_to_room; tauto|].
    intros t. rewrite elem_of_to_room, elem_of_members. tauto.
  - intros u. rewrite (on_join_state h u s sk H). cbn [fst].
    unfold on_typing. cbn [sockets]. rewrite lookup_insert_eq.
    eexists. split; done.
  - intros t Ht Hsome. pose proof (joinRoom_member t (chatId m) s Hsome) as Hmem.
    destruct Hsome as [skt Hskt]. unfold on_joinRoom in *. rewrite Hskt in *.
    cbn [fst] in *. unfold on_sendMessage. cbn [sockets].
    rewrite lookup_insert_ne by done. rewrite H.
    eexists. split; [done|]. cbn [to]. unfold to_room.
    apply elem_of_difference. split; [exact Hmem|].
    by rewrite elem_of_singleton.
Qed.

Lemma relay_excludes_sender_witness :
  let s := (run [Connect "s1"; Connect "s2"; Join "s1" "alice";
                 JoinRoom "s1" "room"; JoinRoom "s2" "room"] init).1 in
  ∃ e, on_sendMessage "s1" {| chatId := "room"; fields := [("content", "hi")] |} s
         = (s, [e]) ∧
       "s2" ∈ to e ∧ "s1" ∉ to e.
Proof.
  intros s.
  assert (Hs : is_Some (sockets s !! "s1")) by (vm_compute; eauto).
  destruct Hs as [sk Hsk].
  destruct (relay_excludes_sender s "s1" sk
              {| chatId := "room"; fields := [("content", "hi")] |}
              {| typingChatId := "room"; isTyping := true |} Hsk)
    as [(e & He & _ & _ & Hnot & Hto) _].
  exists e. split; [exact He|]. split; [|exact Hnot].
  apply Hto. split; [discriminate|].
  apply elem_of_members.
  exists {| userId := None; rooms := {[ "room" ]} ∪ {[ "s2" ]} |}.
  split; [vm_compute; reflexivity|].
  cbn [rooms chatId]. apply elem_of_union. left. by apply elem_of_singleton.
Defined.



End RealtimeFacts.

(** ** Sorting facts *)

Section SortFacts.
Import Mongoose.
Context {A : Type} (key : A -> Z).

Lemma insert_desc_perm (strict : bool) (x : A) (l : list A) :
  Permutation (insert_desc strict key x l) (x :: l).
Proof.
  induction l as [|y l IH]; cbn [insert_desc]; [done|].
  destruct (if strict then key y <? key x else key y <=? key x); [done|].
  rewrite IH. apply perm_swap.
Qed.

Lemma insert_desc_sorted (strict : bool) (x : A) (l : list A) :
  StronglySorted (descending key) l →
  StronglySorted (descending key) (insert_desc strict key x l).
Proof.
  induction 1 as [|y l Hl IH Hy]; cbn [insert_desc].
  - repeat constructor.
  - destruct (if strict then key y <? key x else key y <=? key x) eqn:E.
    + assert (Hxy : key y <= key x) by (destruct strict; lia).
      constructor; [by constructor|].
      constructor; [exact Hxy|].
      eapply Forall_impl; [exact Hy|]. unfold descending. intros z Hz. lia.
    + assert (Hyx : key x <= key y) by (destruct strict; lia).
      constructor; [exact IH|].
      rewrite (insert_desc_perm strict x l). by constructor.
Qed.

Lemma insertion_sort_from (strict : bool) (l acc : list A) :
  StronglySorted (descending key) acc →
  Permutation (fold_left (fun a x => insert_desc strict key x a) l acc) (acc ++ l) ∧
  StronglySorted (descending key) (fold_left (fun a x => insert_desc strict key x a) l acc).
Proof.
  revert acc. induction l as [|x l IH]; intros acc Hacc; cbn [fold_left].
  - by rewrite app_nil_r.
  - destruct (IH (insert_desc strict key x acc)) as [Hp Hs].
    { by apply insert_desc_sorted. }
    split; [|exact Hs].
    rewrite Hp, (insert_desc_perm strict x acc).
    cbn [app]. apply Permutation_middle.
Qed.

Lemma sorted_snoc (R : A -> A -> Prop) (l : list A) (y : A) :
  StronglySorted R l → Forall (fun a => R a y) l → StronglySorted R (l ++ [y]).
Proof.
  induction 1 as [|z l Hl IH Hz]; intros HF; cbn [app].
  - repeat constructor.
  - inversion HF as [|? ? Hzy HF']; subst.
    constructor; [by apply IH|].
    apply Forall_app. split; [exact Hz|]. by repeat constructor.
Qed.

Lemma sorted_desc_rev (l : list A) :
  StronglySorted (descending key) l →
  StronglySorted (fun a b => key a <= key b) (rev l).
Proof.
  induction 1 as [|y l Hl IH Hy]; cbn [rev]; [constructor|].
  apply sorted_snoc; [exact IH|].
  apply List.Forall_forall. intros a Ha. apply in_rev in Ha.
  rewrite List.Forall_forall in Hy. by apply Hy.
Qed.

(** Two greatest-first arrangements of the same elements coincide when
    the keys are pairwise distinct. *)
Lemma sorted_desc_unique (l1 l2 : list A) :
  Permutation l1 l2 → NoDup (map key l1) →
  StronglySorted (descending key) l1 → StronglySorted (descending key) l2 →
  l1 = l2.
Proof.
  revert l2. induction l1 as [|x l1 IH]; intros l2 Hp Hnd H1 H2.
  - by apply Permutation_nil in Hp.
  - destruct l2 as [|y l2]; [by apply Permutation_sym, Permutation_nil in Hp|].
    inversion H1 as [|? ? H1' Hx]; subst. inversion H2 as [|? ? H2' Hy]; subst.
    cbn [map] in Hnd. apply NoDup_cons in Hnd as [Hnotin Hnd].
    assert (Hxy : x = y).
    { assert (Hin1 : In y (x :: l1)) by (eapply Permutation_in; [symmetry; exact Hp|by left]).
      assert (Hin2 : In x (y :: l2)) by (eapply Permutation_in; [exact Hp|by left]).
      destruct Hin1 as [?|Hin1]; [done|]. destruct Hin2 as [?|Hin2]; [done|].
      rewrite List.Forall_forall in Hx, Hy.
      specialize (Hx _ Hin1). specialize (Hy _ Hin2). unfold descending in *.
      exfalso. apply Hnotin. apply list_elem_of_In, in_map_iff.
      exists y. split; [lia|done]. }
    subst y. f_equal. apply IH; [by eapply Permutation_cons_inv|done..].
Qed.

End SortFacts.

Lemma stable_conforming : Mongoose.conforming Mongoose.stable.
Proof.
  intros A key l. cbn. unfold Mongoose.insertion_sort.
  destruct (insertion_sort_from key true l []) as [Hp Hs]; [constructor|].
  split; [by rewrite Hp|exact Hs].
Qed.

Lemma latest_first_conforming : Mongoose.conforming Mongoose.latest_first.
Proof.
  intros A key l. cbn. unfold Mongoose.insertion_sort.
  destruct (insertion_sort_from key false l []) as [Hp Hs]; [constructor|].
  split; [by rewrite Hp|exact Hs].
Qed.

(** ** The message routes *)

Section MessagesFacts.
Import Model Mongoose Messages.

Lemma exec_connected `{Engine} (q : Query) (db : Db) :
  connected db = true →
  match skipOpt q with Some k => 0 <= k | None => True end →
  exec q db = inr (map (populated (paths q) (users db)) (select q (messages db)), db).
Proof.
  intros Hc Hk. unfold exec, bind, online. rewrite Hc.
  destruct (skipOpt q) as [k|]; [|done].
  destruct (k <? 0) eqn:E; [lia|done].
Qed.

Lemma doc_populated (ps : list string) (us : list User) (l : list Message) :
  map doc (map (populated ps us) l) = l.
Proof. rewrite map_map. cbn [populated doc]. apply map_id. Qed.

(** The documents selected for page [S i] with limit [n]. *)
Lemma select_page `{Engine} (chat : string) (i n : nat) (docs : list Message) :
  (0 < n)%nat →
  select (chatQuery chat (Z.of_nat (S i)) (Z.of_nat n)) docs
  = firstn n (skipn (i * n) (sort_by Message createdAt (List.filter (in_chat chat) docs))).
Proof.
  intros Hn. unfold select, chatQuery.
  cbn [skip Mongoose.limit sort populate find conditions sorted skipOpt limitOpt].
  destruct (Z.of_nat n * 1 =? 0) eqn:E; [lia|].
  replace (Z.abs_nat (Z.of_nat n * 1)) with n by lia.
  replace (Z.to_nat ((Z.of_nat (S i) - 1) * Z.of_nat n)) with (i * n)%nat by lia.
  done.
Qed.

Lemma getChat_page `{Engine} (me userId : string) (i n : nat) (db : Db) :
  connected db = true → (0 < n)%nat →
  getChat me userId {| page := Some (Z.of_nat (S i)); limit := Some (Z.of_nat n) |} db
  = ({| status := 200;
        body := MessagesJson
                  (rev (map (populated ["recipient"; "sender"] (users db))
                          (firstn n (skipn (i * n)
                             (sort_by Message createdAt
                                (List.filter (in_chat (chatIdOf (Some me) (Some userId)))
                                   (messages db))))))) |}, db).
Proof.
  intros Hc Hn. unfold getChat, try_catch, bind. cbn [page limit].
  rewrite exec_connected; [|done|cbn; lia].
  rewrite select_page by done. done.
Qed.

Lemma history_page `{Engine} (me userId : string) (i n : nat) (db : Db) :
  connected db = true → (0 < n)%nat →
  history me userId (Z.of_nat (S i)) (Z.of_nat n) db
  = rev (firstn n (skipn (i * n)
           (sort_by Message createdAt
              (List.filter (in_chat (chatIdOf (Some me) (Some userId))) (messages db))))).
Proof.
  intros Hc Hn. unfold history. rewrite getChat_page by done.
  cbn [fst docsOf body]. by rewrite <- map_rev, doc_populated.
Qed.






(** C7, as stated, fails: page 0 is not treated as page 1.  With the
    default limit the skip is negative, the store rejects the query and
    the reply is the 500 error, while page 1 with limit 50 is answered
    with the two messages of the conversation. *)
Lemma page_zero_not_defaulted :
  let E := stable in
  getChat "a" "b" {| page := Some 0; limit := None |} Sample.two
    = (server_error, Sample.two) ∧
  status (fst (getChat "a" "b" {| page := Some 1; limit := Some 50 |} Sample.two)) = 200%nat ∧
  history "a" "b" 1 50 Sample.two = [Sample.m1; Sample.m2] ∧
  getChat "a" "b" {| page := Some 0; limit := None |} Sample.two
    ≠ getChat "a" "b" {| page := Some 1; limit := Some 50 |} Sample.two.
Proof.
  cbv zeta. split; [vm_compute; reflexivity|].
  split; [vm_compute; reflexivity|].
  split; [vm_compute; reflexivity|].
  intros Heq. apply (f_equal (fun r => status (fst r))) in Heq.
  vm_compute in Heq. discriminate.
Qed.

(** C7 (amended): a missing [page] behaves as page 1 and a missing
    [limit] as limit 50, each on its own; a value that is present is used
    as it is, whatever its sign.  In particular a page that is zero or
    negative, with a positive limit, is not read as page 1: the query is
    rejected and the reply is the 500 error. *)
Theorem missing_page_limit_default `{E : Engine} (me userId : string) (q : PageQuery)
    (db : Db) :
  getChat me userId q db
  = getChat me userId {| page := Some (default 1 (page q));
                         limit := Some (default 50 (limit q)) |} db ∧
  (∀ p l, p <= 0 → 0 < l → connected db = true →
     getChat me userId {| page := Some p; limit := Some l |} db = (server_error, db)).
Proof.
  split.
  - destruct q as [[p|] [l|]]; reflexivity.
  - intros p l Hp Hl Hc. unfold getChat, try_catch, exec, bind, online. cbn [page limit].
    rewrite Hc. cbn [chatQuery skip skipOpt].
    destruct ((p - 1) * l <? 0) eqn:E'; [done|]. nia.
Qed.

Lemma missing_page_limit_default_witness :
  let E := stable in
  getChat "a" "b" {| page := None; limit := None |} Sample.two
  = getChat "a" "b" {| page := Some 1; limit := Some 50 |} Sample.two ∧
  getChat "a" "b" {| page := Some (-1); limit := Some 50 |} Sample.two
  = (server_error, Sample.two).
Proof.
  cbv zeta.
  destruct (missing_page_limit_default (E := stable) "a" "b"
              {| page := None; limit := None |} Sample.two) as [Hd _].
  destruct (missing_page_limit_default (E := stable) "a" "b"
              {| page := Some (-1); limit := Some 50 |} Sample.two) as [_ Hn].
  split; [exact Hd|]. apply Hn; [lia|lia|reflexivity].
Defined.

Lemma unreadIn_true (chat me : string) (m : Message) :
  unreadIn chat me m = true ↔ chatId m = chat ∧ recipient m = me ∧ isRead m = false.
Proof.
  unfold unreadIn. rewrite !andb_true_iff, !String.eqb_eq, Bool.eqb_true_iff. tauto.
Qed.

Lemma unreadIn_markOne (chat me : string) (now : Z) (m : Message) :
  unreadIn chat me (markOne now m) = false.
Proof. unfold unreadIn, markOne. cbn. by rewrite andb_false_r. Qed.

Lemma marked_none_unread (chat me : string) (now : Z) (l : list Message) :
  List.filter (unreadIn chat me)
    (map (fun m => if unreadIn chat me m then markOne now m else m) l) = [].
Proof.
  induction l as [|m l IH]; [done|]. cbn [map List.filter].
  destruct (unreadIn chat me m) eqn:E.
  - by rewrite unreadIn_markOne.
  - by rewrite E.
Qed.

Lemma mark_nothing (c : Message -> bool) (now : Z) (l : list Message) :
  List.filter c l = [] → map (fun m => if c m then markOne now m else m) l = l.
Proof.
  induction l as [|m l IH]; [done|]. cbn [map List.filter].
  destruct (c m); [discriminate|]. intros H. by rewrite IH.
Qed.

Lemma marked_exactly (chat me : string) (now : Z) (l : list Message) :
  Forall2 (fun m m' =>
             (chatId m = chat ∧ recipient m = me ∧ isRead m = false →
              m' = markOne now m ∧ isRead m' = true ∧ readAt m' = Some now) ∧
             (¬ (chatId m = chat ∧ recipient m = me ∧ isRead m = false) → m' = m))
          l (map (fun m => if unreadIn chat me m then markOne now m else m) l).
Proof.
  induction l as [|m l IH]; [constructor|].
  cbn [map]. constructor; [|exact IH]. split.
  - intros Hm. apply unreadIn_true in Hm. by rewrite Hm.
  - intros Hm. destruct (unreadIn chat me m) eqn:E; [|done].
    apply unreadIn_true in E. done.
Qed.

(** C2, as stated, fails: the route does not return the number of rows
    affected.  Marking the conversation read for [b] modifies one row,
    and the reply is the fixed acknowledgement. *)
Lemma mark_read_reply_has_no_count :
  (∃ db', updateMany (unreadIn "a_b" "b") 9 Sample.two = inr (1%nat, db')) ∧
  body (fst (putRead 9 "b" "a_b" Sample.two)) = InfoJson "Messages marked as read" ∧
  body (fst (putRead 9 "b" "a_b" Sample.two)) ≠ CountJson 1.
Proof.
  split; [eexists; vm_compute; reflexivity|].
  split; [vm_compute; reflexivity|]. vm_compute. discriminate.
Qed.

(** C2 (amended): on a reachable database the mark-read route sets
    [isRead] to true and [readAt] to the current time on exactly the
    messages of the conversation that are addressed to the reader and
    unread, and leaves every other message as it is; the update reports
    the number of those messages, but the route replies with a fixed
    acknowledgement and not with that number.  It is idempotent: a
    repeated call (at any later time) modifies 0 rows and leaves the
    database, and so every [readAt], unchanged. *)
Theorem putRead_marks_unread_once (db : Db) (now later : Z) (me chat : string) :
  connected db = true →
  let ack := {| status := 200; body := InfoJson "Messages marked as read" |} in
  ∃ db1,
    putRead now me chat db = (ack, db1) ∧
    updateMany (unreadIn chat me) now db
      = inr (length (List.filter (unreadIn chat me) (messages db)), db1) ∧
    Forall2 (fun m m' =>
               (chatId m = chat ∧ recipient m = me ∧ isRead m = false →
                m' = markOne now m ∧ isRead m' = true ∧ readAt m' = Some now) ∧
               (¬ (chatId m = chat ∧ recipient m = me ∧ isRead m = false) → m' = m))
            (messages db) (messages db1) ∧
    updateMany (unreadIn chat me) later db1 = inr (0%nat, db1) ∧
    putRead later me chat db1 = (ack, db1).
Proof.
  intros Hc ack.
  set (db1 := {| connected := connected db;
                 messages := map (fun m => if unreadIn chat me m then markOne now m else m)
                               (messages db);
                 users := users db |}).
  assert (U1 : updateMany (unreadIn chat me) now db
               = inr (length (List.filter (unreadIn chat me) (messages db)), db1)).
  { unfold updateMany, bind, online. by rewrite Hc. }
  assert (U2 : updateMany (unreadIn chat me) later db1 = inr (0%nat, db1)).
  { unfold updateMany, bind, online. subst db1. cbn [connected messages users].
    rewrite Hc. cbn [connected messages users].
    rewrite marked_none_unread. cbn [length]. do 3 f_equal.
    apply mark_nothing, marked_none_unread. }
  exists db1. split; [|split; [exact U1|split; [|split; [exact U2|]]]].
  - unfold putRead, try_catch, bind. by rewrite U1.
  - subst db1. cbn [messages]. apply marked_exactly.
  - unfold putRead, try_catch, bind. by rewrite U2.
Qed.

Lemma putRead_marks_unread_once_witness :
  connected Sample.two = true ∧
  ∃ db1, putRead 9 "b" "a_b" Sample.two
           = ({| status := 200; body := InfoJson "Messages marked as read" |}, db1) ∧
         updateMany (unreadIn "a_b" "b") 10 db1 = inr (0%nat, db1).
Proof.
  split; [reflexivity|].
  destruct (putRead_marks_unread_once Sample.two 9 10 "b" "a_b" eq_refl)
    as (db1 & H1 & _ & _ & H2 & _).
  exists db1. split; [exact H1|exact H2].
Defined.

Lemma chatIdOf_pair (a b : string) :
  chatIdOf (Some a) (Some b)
  = if String.ltb b a then String.append b (String.append "_" a)
    else String.append a (String.append "_" b).
Proof.
  unfold chatIdOf, Js.sort. cbn [fold_left Js.insert_sorted Js.before].
  by destruct (String.ltb b a).
Qed.

Lemma post_saved (now : Z) (oid me r c : string) (t : option string) (db : Db) :
  connected db = true →
  let m := {| _id := oid; sender := me; recipient := r; content := c;
              messageType := default "text" t;
              chatId := chatIdOf (Some me) (Some r);
              isRead := false; readAt := None; createdAt := now |} in
  post now oid me {| bodyRecipient := Some r; bodyContent := Some c; bodyType := t |} db
  = ({| status := 201;
        body := MessageJson {| doc := m; senderDoc := ref me (users db);
                               recipientDoc := ref r (users db) |} |},
     {| connected := connected db; messages := messages db ++ [m]; users := users db |}).
Proof.
  intros Hc m. subst m.
  unfold post, try_catch, bind, save, validate, populateDoc, read, bind, online, ret.
  repeat (cbn -[chatIdOf ref]; rewrite ?Hc). by destruct t.
Qed.

(** C6: the conversation key does not depend on the order of the two
    user ids; so the key stored with a message that [u1] sends to [u2]
    is the key by which the history route selects messages, both when
    [u2] asks for the conversation with [u1] and when [u1] asks for the
    conversation with [u2]. *)
Theorem chatId_symmetric (u1 u2 : string) :
  chatIdOf (Some u1) (Some u2) = chatIdOf (Some u2) (Some u1) ∧
  ∀ (now : Z) (oid c : string) (t : option string) (db : Db),
    connected db = true →
    ∃ m, messages (snd (post now oid u1
                          {| bodyRecipient := Some u2; bodyContent := Some c;
                             bodyType := t |} db))
           = messages db ++ [m] ∧
         sender m = u1 ∧ recipient m = u2 ∧
         in_chat (chatIdOf (Some u2) (Some u1)) m = true ∧
         in_chat (chatIdOf (Some u1) (Some u2)) m = true.
Proof.
  assert (Hsym : chatIdOf (Some u1) (Some u2) = chatIdOf (Some u2) (Some u1)).
  { rewrite !chatIdOf_pair. unfold String.ltb.
    rewrite (String.compare_antisym u1 u2).
    destruct (String.compare u2 u1) eqn:E; cbn; try done.
    apply String.compare_eq_iff in E. by subst. }
  split; [exact Hsym|].
  intros now oid c t db Hc. rewrite post_saved by done. cbn [snd messages].
  eexists. split; [done|]. cbn [sender recipient]. split; [done|]. split; [done|].
  unfold in_chat. cbn [chatId]. rewrite <- Hsym. split; by apply String.eqb_eq.
Qed.

Lemma chatId_symmetric_witness :
  chatIdOf (Some "a") (Some "b") = chatIdOf (Some "b") (Some "a") ∧
  connected Sample.two = true ∧
  ∃ m, messages (snd (post 9 "m3" "a"
                        {| bodyRecipient := Some "b"; bodyContent := Some "hey";
                           bodyType := None |} Sample.two))
         = messages Sample.two ++ [m] ∧
       in_chat (chatIdOf (Some "b") (Some "a")) m = true.
Proof.
  destruct (chatId_symmetric "a" "b") as [Hs Hp].
  split; [exact Hs|]. split; [reflexivity|].
  destruct (Hp 9 "m3" "hey" None Sample.two eq_refl) as (m & Hm & _ & _ & Hin & _).
  exists m. split; [exact Hm|exact Hin].
Defined.

(** C8, as stated, fails: a request without [content] sent while the
    database is reachable is refused by validation, yet the reply is the
    500 error with the fixed body, the very reply a well-formed request
    gets when the database is down; it carries nothing of the
    validation error. *)
Lemma missing_content_is_server_error :
  connected Sample.two = true ∧
  save 9 {| draftId := "m3"; draftSender := "a"; draftRecipient := Some "b";
            draftContent := None; draftType := "text"; draftChatId := "a_b" |} Sample.two
    = inl (ValidationError "content") ∧
  post 9 "m3" "a" {| bodyRecipient := Some "b"; bodyContent := None; bodyType := None |}
       Sample.two
    = ({| status := 500; body := InfoJson "Server error" |}, Sample.two) ∧
  fst (post 9 "m3" "a" {| bodyRecipient := Some "b"; bodyContent := None; bodyType := None |}
         Sample.two)
    = fst (post 9 "m3" "a"
             {| bodyRecipient := Some "b"; bodyContent := Some "hey"; bodyType := None |}
             Sample.down).
Proof. repeat split; vm_compute; reflexivity. Qed.

(** C8 (amended): the send route replies 201 with the stored message,
    the sender's and the recipient's identity attached, when the request
    has a recipient and a content and the database is reachable; in
    every other case (a missing recipient, a missing content, or the
    database out of reach) it replies 500 with the fixed body
    [Server error] and stores nothing, so a validation failure is not
    told apart from a storage failure. *)
Theorem post_created_or_server_error (now : Z) (oid me : string) (b : SendBody) (db : Db) :
  (∀ r c, bodyRecipient b = Some r → bodyContent b = Some c → connected db = true →
     ∃ m, post now oid me b db
            = ({| status := 201;
                  body := MessageJson {| doc := m; senderDoc := ref me (users db);
                                         recipientDoc := ref r (users db) |} |},
               {| connected := connected db; messages := messages db ++ [m];
                  users := users db |}) ∧
          _id m = oid ∧ sender m = me ∧ recipient m = r ∧ content m = c ∧
          messageType m = default "text" (bodyType b) ∧
          chatId m = chatIdOf (Some me) (Some r) ∧
          isRead m = false ∧ readAt m = None ∧ createdAt m = now) ∧
  (bodyRecipient b = None ∨ bodyContent b = None ∨ connected db = false →
   post now oid me b db = (server_error, db)).
Proof.
  split.
  - intros r c Hr Hcn Hc. destruct b as [br bc bt]. cbn in Hr, Hcn. subst br bc.
    eexists. split; [by apply post_saved|]. cbn. done.
  - intros H. unfold post, try_catch, bind, save, validate.
    destruct b as [[r|] [c|] bt];
      cbn [bodyRecipient bodyContent bodyType draftRecipient draftContent] in *;
      try done.
    destruct H as [H|[H|H]]; try discriminate.
    unfold bind, online. by rewrite H.
Qed.

Lemma post_created_or_server_error_witness :
  status (fst (post 9 "m3" "a"
                 {| bodyRecipient := Some "b"; bodyContent := Some "hey";
                    bodyType := None |} Sample.two)) = 201%nat ∧
  post 9 "m3" "a" {| bodyRecipient := None; bodyContent := Some "hey"; bodyType := None |}
       Sample.two = (server_error, Sample.two).
Proof.
  destruct (post_created_or_server_error 9 "m3" "a"
              {| bodyRecipient := Some "b"; bodyContent := Some "hey"; bodyType := None |}
              Sample.two) as [Hok _].
  destruct (Hok "b" "hey" eq_refl eq_refl eq_refl) as (m & Hm & _).
  destruct (post_created_or_server_error 9 "m3" "a"
              {| bodyRecipient := None; bodyContent := Some "hey"; bodyType := None |}
              Sample.two) as [_ Herr].
  split; [by rewrite Hm|]. apply Herr. by left.
Defined.

End MessagesFacts.

(** ** The conversation list *)

Section ChatsFacts.
Import Model Mongoose Chats.

Lemma filter_perm {A} (f : A -> bool) (l1 l2 : list A) :
  Permutation l1 l2 → Permutation (List.filter f l1) (List.filter f l2).
Proof.
  induction 1 as [|x l1 l2 _ IH|x y l|l1 l2 l3 _ IH1 _ IH2]; cbn [List.filter].
  - done.
  - destruct (f x); [by constructor|done].
  - destruct (f x), (f y); try done. apply perm_swap.
  - by etransitivity.
Qed.

Lemma filter_filter_impl {A} (f g : A -> bool) (l : list A) :
  (∀ x, f x = true → g x = true) →
  List.filter f (List.filter g l) = List.filter f l.
Proof.
  intros Hfg. induction l as [|x l IH]; [done|]. cbn [List.filter].
  destruct (g x) eqn:Eg; cbn [List.filter].
  - by rewrite IH.
  - destruct (f x) eqn:Ef; [|done]. apply Hfg in Ef. congruence.
Qed.

Lemma group_snoc (me : string) (l : list Message) (m : Message) :
  group me (l ++ [m]) = accumulate me m (group me l).
Proof. unfold group. by rewrite fold_left_app. Qed.

(** A document either adds to the first group of its conversation or,
    when there is none, opens a group at the end. *)
Lemma accumulate_cases (me : string) (m : Message) (gs : list Group.t) :
  (∃ gs1 g gs2, gs = gs1 ++ g :: gs2 ∧ Group._id g = chatId m ∧
                (∀ x, x ∈ gs1 → Group._id x ≠ chatId m) ∧
                accumulate me m gs = gs1 ++ added me m g :: gs2) ∨
  ((∀ x, x ∈ gs → Group._id x ≠ chatId m) ∧ accumulate me m gs = gs ++ [opened me m]).
Proof.
  induction gs as [|g gs IH]; cbn [accumulate].
  - right. split; [|done]. intros x Hx. by apply elem_of_nil in Hx.
  - destruct (String.eqb (Group._id g) (chatId m)) eqn:E.
    + apply String.eqb_eq in E. left. exists [], g, gs.
      split; [done|]. split; [done|]. split; [|done].
      intros x Hx. by apply elem_of_nil in Hx.
    + apply String.eqb_neq in E.
      destruct IH as [(gs1 & g0 & gs2 & -> & Hid & Hpre & Hacc)|[Hnone Hacc]].
      * left. exists (g :: gs1), g0, gs2.
        split; [done|]. split; [done|]. split; [|by rewrite Hacc].
        intros x Hx. apply elem_of_cons in Hx as [->|Hx]; [done|by apply Hpre].
      * right. split; [|by rewrite Hacc].
        intros x Hx. apply elem_of_cons in Hx as [->|Hx]; [done|by apply Hnone].
Qed.

Lemma unread_snoc (me c : string) (l : list Message) (m : Message) :
  length (List.filter (Messages.unreadIn c me) (l ++ [m]))
  = (length (List.filter (Messages.unreadIn c me) l)
     + if String.eqb (chatId m) c then cond me m else 0)%nat.
Proof.
  rewrite List.filter_app, length_app. f_equal. cbn [List.filter].
  unfold Messages.unreadIn, cond.
  destruct (String.eqb (chatId m) c); cbn [andb]; [|done].
  by destruct (String.eqb (recipient m) me && Bool.eqb (isRead m) false).
Qed.

Lemma grouped_step (me : string) (l : list Message) (m : Message) (gs : list Group.t) :
  grouped me l gs → grouped me (l ++ [m]) (accumulate me m gs).
Proof.
  intros (Hnd & Hg & Hcov).
  assert (Hold : ∀ g, g ∈ gs → Group._id g ≠ chatId m →
            (∃ l1 l2, l ++ [m] = l1 ++ Group.lastMessage g :: l2 ∧
                      chatId (Group.lastMessage g) = Group._id g ∧
                      ∀ x, x ∈ l1 → chatId x ≠ Group._id g) ∧
            Group.unreadCount g
            = length (List.filter (Messages.unreadIn (Group._id g) me) (l ++ [m]))).
  { intros g Hin Hne. destruct (Hg g Hin) as [(l1 & l2 & -> & Hc & Hpre) Hcnt].
    split.
    - exists l1, (l2 ++ [m]). by rewrite <- app_assoc.
    - rewrite unread_snoc, <- Hcnt.
      destruct (String.eqb (chatId m) (Group._id g)) eqn:E; [|lia].
      apply String.eqb_eq in E. congruence. }
  destruct (accumulate_cases me m gs)
    as [(gs1 & g0 & gs2 & -> & Hid & Hpre & ->)|[Hnone ->]].
  - assert (Hids : map Group._id (gs1 ++ added me m g0 :: gs2)
                   = map Group._id (gs1 ++ g0 :: gs2)) by (by rewrite !map_app).
    split; [by rewrite Hids|]. split.
    + intros g Hin. apply elem_of_app in Hin as [Hin|Hin].
      * apply Hold; [apply elem_of_app; by left|by apply Hpre].
      * apply elem_of_cons in Hin as [->|Hin].
        -- destruct (Hg g0) as [(l1 & l2 & -> & Hc & Hfirst) Hcnt].
           { apply elem_of_app. right. by left. }
           cbn [added Group._id Group.lastMessage Group.unreadCount]. split.
           ++ exists l1, (l2 ++ [m]). by rewrite <- app_assoc.
           ++ rewrite unread_snoc, <- Hcnt, Hid. by rewrite String.eqb_refl.
        -- apply Hold; [apply elem_of_app; right; by right|].
           rewrite map_app in Hnd. cbn [map] in Hnd.
           apply NoDup_app in Hnd as (_ & _ & Hnd).
           apply NoDup_cons in Hnd as [Hnotin _].
           intros Heq. apply Hnotin. rewrite Hid, <- Heq.
           apply list_elem_of_In, in_map, list_elem_of_In. exact Hin.
    + intros x Hx. rewrite Hids. apply elem_of_app in Hx as [Hx|Hx]; [by apply Hcov|].
      apply list_elem_of_singleton in Hx as ->. rewrite <- Hid.
      apply list_elem_of_In, in_map, list_elem_of_In, elem_of_app. right. by left.
  - assert (Hfresh : ∀ x, x ∈ l → chatId x ≠ chatId m).
    { intros x Hx Heq. specialize (Hcov x Hx).
      apply list_elem_of_In, in_map_iff in Hcov as (g & Hgid & Hgin).
      apply list_elem_of_In in Hgin. apply (Hnone g Hgin). congruence. }
    split; [|split].
    + rewrite map_app. cbn [map opened Group._id].
      apply NoDup_app. split; [done|]. split; [|apply NoDup_singleton].
      intros c Hc Hc'. apply list_elem_of_singleton in Hc' as ->.
      apply list_elem_of_In, in_map_iff in Hc as (g & Hgid & Hgin).
      apply list_elem_of_In in Hgin. by apply (Hnone g Hgin).
    + intros g Hin. apply elem_of_app in Hin as [Hin|Hin].
      * apply Hold; [done|by apply Hnone].
      * apply list_elem_of_singleton in Hin as ->.
        cbn [opened Group._id Group.lastMessage Group.unreadCount]. split.
        -- exists l, []. done.
        -- rewrite unread_snoc, String.eqb_refl.
           replace (List.filter (Messages.unreadIn (chatId m) me) l) with (@nil Message);
             [done|].
           symmetry. clear -Hfresh. induction l as [|x l IH]; [done|].
           cbn [List.filter]. unfold Messages.unreadIn at 1.
           destruct (String.eqb (chatId x) (chatId m)) eqn:E.
           ++ apply String.eqb_eq in E. exfalso. apply (Hfresh x); [by left|done].
           ++ cbn [andb]. apply IH. intros y Hy. apply Hfresh. by right.
    + intros x Hx. rewrite map_app. apply elem_of_app.
      apply elem_of_app in Hx as [Hx|Hx]; [left; by apply Hcov|].
      right. apply list_elem_of_singleton in Hx as ->. by left.
Qed.

Lemma group_grouped (me : string) (l : list Message) : grouped me l (group me l).
Proof.
  induction l as [|m l IH] using rev_ind.
  - split; [constructor|]. split; intros x Hx; by apply elem_of_nil in Hx.
  - rewrite group_snoc. by apply grouped_step.
Qed.

(** The first documents of the groups, in group order, are picked from
    the input in its order. *)
Lemma group_lastMessages_sublist (me : string) (l : list Message) :
  map Group.lastMessage (group me l) `sublist_of` l.
Proof.
  induction l as [|m l IH] using rev_ind; [done|].
  rewrite group_snoc.
  destruct (accumulate_cases me m (group me l))
    as [(gs1 & g0 & gs2 & Hgs & _ & _ & ->)|[_ ->]].
  - replace (map Group.lastMessage (gs1 ++ added me m g0 :: gs2))
      with (map Group.lastMessage (group me l)) by (by rewrite Hgs, !map_app).
    by apply sublist_inserts_r.
  - rewrite map_app. by apply sublist_app.
Qed.

Lemma read_connected {A} (f : Db -> A) (db : Db) :
  connected db = true → read f db = inr (f db, db).
Proof. intros Hc. unfold read, bind, online. by rewrite Hc. Qed.

Lemma find_by_id (l : list Message) (m : Message) :
  NoDup (map _id l) → m ∈ l →
  List.find (fun x => String.eqb (_id x) (_id m)) l = Some m.
Proof.
  induction l as [|x l IH]; intros Hnd Hin; [by apply elem_of_nil in Hin|].
  cbn [map] in Hnd. apply NoDup_cons in Hnd as [Hx Hnd]. cbn [List.find].
  apply elem_of_cons in Hin as [->|Hin]; [by rewrite String.eqb_refl|].
  destruct (String.eqb (_id x) (_id m)) eqn:E; [|by apply IH].
  apply String.eqb_eq in E. exfalso. apply Hx. rewrite E.
  apply list_elem_of_In, in_map, list_elem_of_In. exact Hin.
Qed.

Lemma findUser_key (id : string) (us : list User) (u : User) :
  findUser id us = Some u → userKey u = id.
Proof.
  unfold findUser. intros H. apply find_some in H as [_ H]. by apply String.eqb_eq.
Qed.

(** The entry the route builds for a group whose last message and its
    two users exist. *)
Lemma summary_found (me : string) (g : Group.t) (db : Db) :
  connected db = true → NoDup (map _id (messages db)) →
  Group.lastMessage g ∈ messages db →
  is_Some (findUser (sender (Group.lastMessage g)) (users db)) →
  is_Some (findUser (recipient (Group.lastMessage g)) (users db)) →
  summary me g db
  = inr ({| Chat.chatId := Group._id g;
            Chat.otherUser :=
              findUser (if String.eqb (sender (Group.lastMessage g)) me
                        then recipient (Group.lastMessage g)
                        else sender (Group.lastMessage g)) (users db);
            Chat.lastMessage :=
              populated ["recipient"; "sender"] (users db) (Group.lastMessage g);
            Chat.unreadCount := Group.unreadCount g |}, db).
Proof.
  intros Hc Hnd Hin [us Hus] [ur Hur].
  unfold summary, findById, findUserById, bind at 1.
  rewrite read_connected by done. rewrite find_by_id by done.
  cbn [populated senderDoc recipientDoc has_path existsb String.eqb Ascii.eqb Bool.eqb orb].
  unfold ref. rewrite Hus, Hur.
  cbn [refKey]. rewrite (findUser_key _ _ _ Hus), (findUser_key _ _ _ Hur).
  destruct (String.eqb (sender (Group.lastMessage g)) me);
    unfold bind; by rewrite read_connected.
Qed.

Lemma all_map {A B} (f : A -> Task B) (h : A -> B) (l : list A) (db : Db) :
  (∀ a, a ∈ l → f a db = inr (h a, db)) →
  all (map f l) db = inr (map h l, db).
Proof.
  induction l as [|a l IH]; intros Hf; [done|].
  cbn [map all]. unfold bind at 1. rewrite Hf by (by left).
  unfold bind at 1. rewrite IH; [done|]. intros b Hb. apply Hf. by right.
Qed.

Lemma matching_true (me : string) (m : Message) :
  matching me m = true ↔ sender m = me ∨ recipient m = me.
Proof. unfold matching. by rewrite orb_true_iff, !String.eqb_eq. Qed.

Lemma unreadIn_matching (c me : string) (m : Message) :
  Messages.unreadIn c me m = true → matching me m = true.
Proof.
  intros H. apply unreadIn_true in H as (_ & H & _).
  apply matching_true. by right.
Qed.


(** The pipeline's result on a reachable database: the groups of the
    user's messages, newest last message first. *)
Lemma pipeline_groups `{E : Engine} (me : string) (docs : list Message) :
  conforming E →
  let s1 := sort_by Message createdAt (List.filter (matching me) docs) in
  Permutation s1 (List.filter (matching me) docs) ∧
  StronglySorted (descending createdAt) s1 ∧
  grouped me s1 (group me s1) ∧
  Permutation (pipeline me docs) (group me s1) ∧
  StronglySorted (descending (fun g => createdAt (Group.lastMessage g))) (pipeline me docs).
Proof.
  intros HE s1.
  destruct (HE Message createdAt (List.filter (matching me) docs)) as [Hp1 Hs1].
  destruct (HE Group.t (fun g => createdAt (Group.lastMessage g)) (group me s1))
    as [Hp2 Hs2].
  split; [exact Hp1|]. split; [exact Hs1|]. split; [apply group_grouped|].
  split; [exact Hp2|exact Hs2].
Qed.



Lemma sublist_map {A B} (f : A -> B) (l k : list A) :
  l `sublist_of` k → map f l `sublist_of` map f k.
Proof. induction 1; cbn [map]; by constructor. Qed.

Lemma sort_by_agree (E1 E2 : Engine) {A} (key : A -> Z) (l : list A) :
  conforming E1 → conforming E2 → NoDup (map key l) →
  @sort_by E1 A key l = @sort_by E2 A key l.
Proof.
  intros H1 H2 Hnd.
  destruct (H1 A key l) as [Hp1 Hs1]. destruct (H2 A key l) as [Hp2 Hs2].
  apply (sorted_desc_unique key); [by rewrite Hp1, Hp2| |done..].
  by rewrite (Permutation_map key Hp1).
Qed.

Lemma exec_agree (E1 E2 : Engine) (q : Query) (db : Db) :
  conforming E1 → conforming E2 →
  NoDup (map createdAt (List.filter (conditions q) (messages db))) →
  @exec E1 q db = @exec E2 q db.
Proof.
  intros H1 H2 Hnd. unfold exec, bind, online, select.
  destruct (connected db); [|done].
  by rewrite (sort_by_agree E1 E2 createdAt _ H1 H2 Hnd).
Qed.

Lemma pipeline_agree (E1 E2 : Engine) (me : string) (docs : list Message) :
  conforming E1 → conforming E2 →
  NoDup (map createdAt (List.filter (matching me) docs)) →
  @pipeline E1 me docs = @pipeline E2 me docs.
Proof.
  intros H1 H2 Hnd. unfold pipeline.
  rewrite (sort_by_agree E1 E2 createdAt _ H1 H2 Hnd).
  apply sort_by_agree; [done..|].
  rewrite <- (map_map Group.lastMessage createdAt).
  eapply sublist_NoDup; [|apply sublist_map, group_lastMessages_sublist].
  destruct (H2 Message createdAt (List.filter (matching me) docs)) as [Hp _].
  by rewrite (Permutation_map createdAt Hp).
Qed.

(** C4, as stated, fails: two messages saved at the same instant have no
    order of their own.  Under the stable sort the history lists the
    message inserted later first and the conversation list shows the
    message inserted first as the last message; under another sort that
    is just as good by [createdAt], it is the other way round. *)
Lemma equal_timestamps_order_by_engine :
  conforming stable ∧ conforming latest_first ∧
  createdAt Sample.t1 = createdAt Sample.t2 ∧
  messages Sample.tied = [Sample.t1; Sample.t2] ∧
  @Messages.history stable "a" "b" 1 50 Sample.tied = [Sample.t2; Sample.t1] ∧
  @Messages.history latest_first "a" "b" 1 50 Sample.tied = [Sample.t1; Sample.t2] ∧
  @lastMessages stable "a" Sample.tied = [Sample.t1] ∧
  @lastMessages latest_first "a" Sample.tied = [Sample.t2].
Proof.
  split; [exact stable_conforming|]. split; [exact latest_first_conforming|].
  repeat split; vm_compute; reflexivity.
Qed.

(** C4 (amended): the history and the conversation list are ordered by
    [createdAt] alone; no insertion sequence number is kept or compared.
    When the [createdAt] values of the messages involved are pairwise
    distinct, the replies are the same under every sort that orders by
    [createdAt]; the order of messages with equal [createdAt] is left to
    the store's sort. *)
Theorem order_fixed_by_distinct_createdAt (E1 E2 : Engine) (db : Db) (me userId : string)
    (q : Messages.PageQuery) :
  conforming E1 → conforming E2 →
  (NoDup (map createdAt
            (List.filter (Messages.in_chat (Messages.chatIdOf (Some me) (Some userId)))
               (messages db))) →
   @Messages.getChat E1 me userId q db = @Messages.getChat E2 me userId q db) ∧
  (NoDup (map createdAt (List.filter (matching me) (messages db))) →
   @getChats E1 me db = @getChats E2 me db).
Proof.
  intros H1 H2. split.
  - intros Hnd. unfold Messages.getChat, try_catch, bind.
    by rewrite (exec_agree E1 E2 _ db H1 H2).
  - intros Hnd. unfold getChats, try_catch, bind, aggregate, read, bind, online.
    destruct (connected db); [|done].
    by rewrite (pipeline_agree E1 E2 me _ H1 H2 Hnd).
Qed.

Lemma order_fixed_by_distinct_createdAt_witness :
  conforming stable ∧ conforming latest_first ∧
  @Messages.getChat stable "a" "b" {| Messages.page := None; Messages.limit := None |}
     Sample.two
  = @Messages.getChat latest_first "a" "b"
      {| Messages.page := None; Messages.limit := None |} Sample.two ∧
  @getChats stable "a" Sample.two = @getChats latest_first "a" Sample.two.
Proof.
  destruct (order_fixed_by_distinct_createdAt stable latest_first Sample.two "a" "b"
              {| Messages.page := None; Messages.limit := None |}
              stable_conforming latest_first_conforming) as [Hh Hc].
  split; [exact stable_conforming|]. split; [exact latest_first_conforming|].
  split.
  - apply Hh. apply (bool_decide_unpack _). vm_compute. exact I.
  - apply Hc. apply (bool_decide_unpack _). vm_compute. exact I.
Defined.

End ChatsFacts.

(** ** More on presence and relay *)

Section RealtimeMore.
Import Realtime.

Lemma step_dead (h : string) (e : Event) (s : Server) :
  sockets s !! h = None → e ≠ Connect h →
  sockets (step e s).1 !! h = None ∧ Forall (λ em, h ∉ to em) (step e s).2.
Proof.
  intros Hh He.
  assert (Hb : ∀ id, h ∉ broadcast id s).
  { intros id Hin. unfold broadcast in Hin.
    apply elem_of_difference in Hin as [Hin _].
    apply elem_of_dom in Hin as [sk Hsk]. congruence. }
  assert (Hr : ∀ id r, h ∉ to_room id r s).
  { intros id r Hin. apply elem_of_to_room in Hin as (_ & sk & Hsk & _). congruence. }
  destruct e as [id|id v|id r|id m|id d|id]; cbn [step].
  - cbn [fst snd connection sockets]. split; [|constructor].
    rewrite lookup_insert_ne; [done|]. intros ->. done.
  - unfold on_join. destruct (sockets s !! id) as [sk|] eqn:E; cbn [fst snd sockets].
    + split; [|constructor; [apply Hb|constructor]].
      rewrite lookup_insert_ne; [done|]. intros ->. congruence.
    + split; [done|constructor].
  - unfold on_joinRoom. destruct (sockets s !! id) as [sk|] eqn:E; cbn [fst snd sockets].
    + split; [|constructor].
      rewrite lookup_insert_ne; [done|]. intros ->. congruence.
    + split; [done|constructor].
  - unfold on_sendMessage. destruct (sockets s !! id); cbn [fst snd].
    + split; [done|]. constructor; [apply Hr|constructor].
    + split; [done|constructor].
  - unfold on_typing. destruct (sockets s !! id); cbn [fst snd].
    + split; [done|]. constructor; [apply Hr|constructor].
    + split; [done|constructor].
  - unfold on_disconnect. destruct (sockets s !! id) as [sk|] eqn:E.
    + assert (Hd : delete id (sockets s) !! h = None).
      { apply lookup_delete_None. by right. }
      assert (Hnot : h ∉ dom (delete id (sockets s))).
      { intros Hin. apply elem_of_dom in Hin as [x Hx]. congruence. }
      destruct (userId sk) as [u|]; [destruct (Js.truthy (Some u))|];
        cbn [fst snd sockets]; (split; [done|]);
        [constructor; [exact Hnot|constructor]|constructor..].
    + split; [done|constructor].
Qed.

Lemma run_dead (h : string) (tr : list Event) :
  ∀ s, sockets s !! h = None → Forall (λ e, e ≠ Connect h) tr →
       sockets (run tr s).1 !! h = None ∧ Forall (λ em, h ∉ to em) (run tr s).2.
Proof.
  induction tr as [|e tr IH]; intros s Hh Htr; cbn [run].
  - split; [done|constructor].
  - inversion Htr as [|? ? He Htr']; subst.
    destruct (step_dead h e s Hh He) as [Hh1 Hout1].
    destruct (step e s) as [s1 out1]. cbn [fst snd] in *.
    destruct (IH s1 Hh1 Htr') as [Hh2 Hout2].
    destruct (run tr s1) as [s2 out2]. cbn [fst snd] in *.
    split; [done|]. by apply Forall_app.
Qed.

Lemma disconnect_removes (h : string) (s : Server) :
  sockets (on_disconnect h s).1 !! h = None ∧
  Forall (λ em, h ∉ to em) (on_disconnect h s).2.
Proof.
  unfold on_disconnect. destruct (sockets s !! h) as [sk|] eqn:E.
  - assert (Hnot : h ∉ dom (delete h (sockets s))).
    { intros Hin. apply elem_of_dom in Hin as [x Hx].
      by rewrite lookup_delete_eq in Hx. }
    destruct (userId sk) as [u|]; [destruct (Js.truthy (Some u))|];
      cbn [fst snd sockets]; (split; [apply lookup_delete_eq|]);
      [constructor; [exact Hnot|constructor]|constructor..].
  - split; [done|constructor].
Qed.

(** X1: Once a socket has disconnected, and until a connection with the
    same id is made, nothing is emitted to it (neither by its own
    disconnect nor by any later event of any socket), it stays
    unconnected, and it is a member of no room. *)
Theorem nothing_reaches_disconnected (h : string) (tr : list Event) (s : Server) :
  Forall (λ e, e ≠ Connect h) tr →
  let end_ := run (Disconnect h :: tr) s in
  Forall (λ em, h ∉ to em) end_.2 ∧
  sockets end_.1 !! h = None ∧
  ∀ room, h ∉ members room end_.1.
Proof.
  intros Htr. cbn [run step].
  destruct (disconnect_removes h s) as [Hh1 Hout1].
  destruct (on_disconnect h s) as [s1 out1]. cbn [fst snd] in *.
  destruct (run_dead h tr s1 Hh1 Htr) as [Hh2 Hout2].
  destruct (run tr s1) as [s2 out2]. cbn [fst snd] in *.
  split; [by apply Forall_app|]. split; [done|].
  intros room Hin. apply elem_of_members in Hin as (sk & Hsk & _). congruence.
Qed.

Lemma nothing_reaches_disconnected_witness :
  let s := (run [Connect "s1"; Connect "s2"; JoinRoom "s1" "room"] init).1 in
  let m := {| chatId := "room"; fields := [] |} in
  Forall (λ e, e ≠ Connect "s1") [JoinRoom "s2" "room"; SendMessage "s2" m] ∧
  Forall (λ em, "s1" ∉ to em)
    (run [Disconnect "s1"; JoinRoom "s2" "room"; SendMessage "s2" m] s).2.
Proof.
  cbv zeta.
  assert (H : Forall (λ e, e ≠ Connect "s1")
                [JoinRoom "s2" "room";
                 SendMessage "s2" {| chatId := "room"; fields := [] |}])
    by (repeat constructor; discriminate).
  split; [exact H|].
  exact (proj1 (nothing_reaches_disconnected "s1" _ _ H)).
Defined.

(** X2: Joining a room is idempotent: a second [joinRoom] for the same room
    from the same socket changes nothing, and [joinRoom] never emits
    and never touches the presence map. *)
Theorem joinRoom_idempotent (h room : string) (s : Server) :
  on_joinRoom h room (on_joinRoom h room s).1 = on_joinRoom h room s ∧
  (on_joinRoom h room s).2 = [] ∧
  activeUsers (on_joinRoom h room s).1 = activeUsers s.
Proof.
  unfold on_joinRoom. destruct (sockets s !! h) as [sk|] eqn:E; cbn [fst snd].
  - cbn [sockets activeUsers userId rooms]. rewrite lookup_insert_eq.
    cbn [userId rooms]. split; [|done]. f_equal.
    rewrite insert_insert_eq. do 3 f_equal.
    by rewrite (assoc_L (∪)), union_idemp_L.
  - by rewrite E.
Qed.

(** X3: Relay does not depend on presence: a socket that has connected but
    never sent [join] still has its [sendMessage] and [typing] events
    delivered to the other members of the room; the typing payload then
    carries an undefined [userId]. *)
Theorem relay_without_join (s : Server) (h t : string) (m : MessageData)
    (d : TypingData) :
  h ≠ t →
  (let s' := (run [Connect h; Connect t; JoinRoom t (chatId m)] s).1 in
   ∃ e, on_sendMessage h m s' = (s', [e]) ∧ data e = NewMessage m ∧ t ∈ to e) ∧
  (let s' := (run [Connect h; Connect t; JoinRoom t (typingChatId d)] s).1 in
   ∃ e, on_typing h d s' = (s', [e]) ∧ data e = UserTyping None (isTyping d) ∧ t ∈ to e).
Proof.
  intros Hne.
  assert (Hrun : ∀ room,
    let s' := (run [Connect h; Connect t; JoinRoom t room] s).1 in
    sockets s' !! h = Some {| userId := None; rooms := {[ h ]} |} ∧
    t ∈ members room s').
  { intros room. cbn [run step]. unfold on_joinRoom, connection.
    cbn [sockets activeUsers]. rewrite lookup_insert_eq. cbn [fst sockets userId rooms].
    split.
    - rewrite lookup_insert_ne by done. rewrite lookup_insert_ne by done.
      apply lookup_insert_eq.
    - apply elem_of_members. eexists. split; [apply lookup_insert_eq|].
      cbn [rooms]. apply elem_of_union. left. by apply elem_of_singleton. }
  split.
  - destruct (Hrun (chatId m)) as [Hh Ht]. cbv zeta.
    set (s' := (run _ s).1) in *.
    unfold on_sendMessage. rewrite Hh. eexists. split; [done|]. split; [done|].
    cbn [to]. unfold to_room. apply elem_of_difference. split; [done|].
    rewrite elem_of_singleton. congruence.
  - destruct (Hrun (typingChatId d)) as [Hh Ht]. cbv zeta.
    set (s' := (run _ s).1) in *.
    unfold on_typing. rewrite Hh. eexists. split; [done|]. split; [done|].
    cbn [to]. unfold to_room. apply elem_of_difference. split; [done|].
    rewrite elem_of_singleton. congruence.
Qed.

Lemma relay_without_join_witness :
  "s1" ≠ "s2" ∧
  let m := {| chatId := "room"; fields := [("content", "hi")] |} in
  let s' := (run [Connect "s1"; Connect "s2"; JoinRoom "s2" "room"] init).1 in
  ∃ e, on_sendMessage "s1" m s' = (s', [e]) ∧ "s2" ∈ to e.
Proof.
  assert (H : "s1" ≠ "s2") by discriminate.
  split; [exact H|]. cbv zeta.
  destruct (relay_without_join init "s1" "s2"
              {| chatId := "room"; fields := [("content", "hi")] |}
              {| typingChatId := "room"; isTyping := true |} H)
    as [(e & He & _ & Hto) _].
  exists e. split; [exact He|exact Hto].
Defined.

End RealtimeMore.

(** ** More on the routes *)

Section RoutesMore.
Import Model Mongoose Messages Chats Router.

Lemma summary_keeps (me : string) (g : Group.t) (db : Db) :
  (∃ e, summary me g db = inl e) ∨ (∃ c, summary me g db = inr (c, db)).
Proof.
  unfold summary, findById, findUserById, read, bind, online, throw, ret.
  destruct (connected db) eqn:Hc; [|left; eauto].
  destruct (List.find _ (messages db)) as [m|]; [|left; eauto].
  destruct (senderDoc _) as [sd|]; [|left; eauto].
  destruct (String.eqb (refKey sd) me); [|right; rewrite Hc; eauto].
  destruct (recipientDoc _) as [rd|]; [right; rewrite Hc; eauto|left; eauto].
Qed.

Lemma all_keeps {A B} (f : A -> Task B) (l : list A) (db : Db) :
  (∀ a, (∃ e, f a db = inl e) ∨ (∃ c, f a db = inr (c, db))) →
  (∃ e, all (map f l) db = inl e) ∨ (∃ cs, all (map f l) db = inr (cs, db)).
Proof.
  intros Hf. induction l as [|a l IH]; cbn [map all].
  - right. by exists [].
  - destruct (Hf a) as [[e He]|[c Hc]].
    + left. exists e. unfold bind. by rewrite He.
    + destruct IH as [[e He]|[cs Hcs]].
      * left. exists e. unfold bind. by rewrite Hc, He.
      * right. exists (c :: cs). unfold bind. by rewrite Hc, Hcs.
Qed.

Lemma getChat_keeps `{E : Engine} (me userId : string) (q : PageQuery) (db : Db) :
  snd (getChat me userId q db) = db.
Proof.
  unfold getChat, try_catch, exec, bind, online, ret.
  destruct (connected db); [|done]. cbn [chatQuery skip skipOpt].
  by destruct (_ <? 0).
Qed.

Lemma getUnreadCount_keeps (me : string) (db : Db) : snd (getUnreadCount me db) = db.
Proof.
  unfold getUnreadCount, try_catch, countDocuments, read, bind, online, ret.
  by destruct (connected db).
Qed.

Lemma getChats_keeps `{E : Engine} (me : string) (db : Db) : snd (getChats me db) = db.
Proof.
  unfold getChats, try_catch, bind at 1, aggregate, read, bind at 1, online.
  destruct (connected db); [|done]. unfold bind at 1.
  destruct (all_keeps (summary me) (pipeline me (messages db)) db
              (fun g => summary_keeps me g db)) as [[e ->]|[cs ->]]; done.
Qed.

(** X4: The history, unread-count and conversation-list routes are pure
    reads: whatever the request and whether it succeeds or fails, the
    database is left exactly as it was. *)
Theorem read_routes_keep_database `{E : Engine} (me userId : string) (q : PageQuery)
    (db : Db) :
  snd (getChat me userId q db) = db ∧
  snd (getUnreadCount me db) = db ∧
  snd (getChats me db) = db.
Proof.
  split; [apply getChat_keeps|]. split; [apply getUnreadCount_keeps|apply getChats_keeps].
Qed.

(** X5: When the database cannot be reached every route replies 500 with
    the body [Server error], and nothing is written. *)
Theorem unreachable_database_is_500 `{E : Engine} (r : Request) (db : Db) :
  connected db = false → handle r db = (server_error, db).
Proof.
  intros Hc. destruct r as [now oid me b|me u q|now me chat|me|me]; cbn [handle].
  - unfold post, try_catch, bind, save, validate.
    destruct (bodyRecipient b), (bodyContent b);
      cbn [draftRecipient draftContent]; try done.
    unfold bind, online. by rewrite Hc.
  - unfold getChat, try_catch, exec, bind, online. by rewrite Hc.
  - unfold putRead, try_catch, updateMany, bind, online. by rewrite Hc.
  - unfold getUnreadCount, try_catch, countDocuments, read, bind, online. by rewrite Hc.
  - unfold getChats, try_catch, bind at 1, aggregate, read, bind at 1, online.
    by rewrite Hc.
Qed.

Lemma unreachable_database_is_500_witness :
  let E := stable in
  connected Sample.down = false ∧
  handle (ListChats "a") Sample.down = (server_error, Sample.down) ∧
  handle (MarkRead 9 "b" "a_b") Sample.down = (server_error, Sample.down).
Proof.
  cbv zeta. split; [reflexivity|].
  split; apply (unreachable_database_is_500 (E := stable)); reflexivity.
Defined.

(** X6: For a positive page [p] and limit [L], page [p] of a conversation
    of [n] messages holds [min L (n - (p-1) * L)] messages, and none when
    that is negative: a page past the end of the conversation is an
    empty list, sent with status 200. *)
Theorem history_page_length `{E : Engine} (db : Db) (me userId : string) (p L : Z) :
  conforming E → connected db = true → 0 < L → 0 < p →
  let n := Z.of_nat (length (List.filter (in_chat (chatIdOf (Some me) (Some userId)))
                               (messages db))) in
  Z.of_nat (length (history me userId p L db)) = Z.max 0 (Z.min L (n - (p - 1) * L)) ∧
  (n <= (p - 1) * L →
   getChat me userId {| page := Some p; limit := Some L |} db
   = ({| status := 200; body := MessagesJson [] |}, db)).
Proof.
  intros HE Hc HL Hp n.
  destruct (HE Message createdAt
              (List.filter (in_chat (chatIdOf (Some me) (Some userId))) (messages db)))
    as [Hperm _].
  apply Permutation_length in Hperm.
  replace L with (Z.of_nat (Z.to_nat L)) by lia.
  replace p with (Z.of_nat (S (Z.to_nat (p - 1)))) by lia.
  set (k := Z.to_nat L). set (i := Z.to_nat (p - 1)).
  assert (Hk : (0 < k)%nat) by lia.
  rewrite history_page, getChat_page by done.
  split.
  - rewrite length_rev, length_take, length_drop, Hperm. subst n. nia.
  - intros Hn. rewrite drop_ge; [by rewrite take_nil|].
    rewrite Hperm. subst n. nia.
Qed.

Lemma history_page_length_witness :
  let E := stable in
  conforming E ∧ connected Sample.two = true ∧
  Z.of_nat (length (history "a" "b" 1 50 Sample.two)) = 2 ∧
  getChat "a" "b" {| page := Some 2; limit := Some 50 |} Sample.two
  = ({| status := 200; body := MessagesJson [] |}, Sample.two).
Proof.
  cbv zeta.
  destruct (history_page_length (E := stable) Sample.two "a" "b" 1 50
              stable_conforming eq_refl ltac:(lia) ltac:(lia)) as [H1 _].
  destruct (history_page_length (E := stable) Sample.two "a" "b" 2 50
              stable_conforming eq_refl ltac:(lia) ltac:(lia)) as [_ H2].
  split; [exact stable_conforming|]. split; [reflexivity|].
  split; [exact H1|]. apply H2. vm_compute. discriminate.
Defined.

(** X7: A limit of 0 switches paging off: whatever the page, the reply is
    the whole conversation, oldest first. *)
Theorem limit_zero_whole_conversation `{E : Engine} (db : Db) (me userId : string)
    (p : Z) :
  conforming E → connected db = true →
  status (fst (getChat me userId {| page := Some p; limit := Some 0 |} db)) = 200%nat ∧
  Permutation (history me userId p 0 db)
    (List.filter (in_chat (chatIdOf (Some me) (Some userId))) (messages db)) ∧
  ascending (history me userId p 0 db).
Proof.
  intros HE Hc.
  destruct (HE Message createdAt
              (List.filter (in_chat (chatIdOf (Some me) (Some userId))) (messages db)))
    as [Hperm Hsorted].
  unfold history, getChat, try_catch, bind. cbn [page limit].
  rewrite exec_connected; [|done|cbn; lia].
  unfold select, chatQuery.
  cbn [skip Mongoose.limit sort populate find conditions sorted skipOpt limitOpt paths
       fst status docsOf body ret].
  replace (Z.to_nat ((p - 1) * 0)) with 0%nat by lia. cbn [skipn Z.mul Z.eqb].
  rewrite <- map_rev, doc_populated.
  split; [done|]. split.
  - by rewrite <- Permutation_rev.
  - by apply sorted_desc_rev.
Qed.

Lemma limit_zero_whole_conversation_witness :
  let E := stable in
  conforming E ∧ connected Sample.two = true ∧
  ascending (history "a" "b" 7 0 Sample.two) ∧
  Permutation (history "a" "b" 7 0 Sample.two) [Sample.m1; Sample.m2].
Proof.
  cbv zeta.
  destruct (limit_zero_whole_conversation (E := stable) Sample.two "a" "b" 7
              stable_conforming eq_refl) as (_ & Hp & Ha).
  split; [exact stable_conforming|]. split; [reflexivity|].
  split; [exact Ha|exact Hp].
Defined.

Lemma chatIdOf_comm (a b : string) :
  chatIdOf (Some a) (Some b) = chatIdOf (Some b) (Some a).
Proof.
  rewrite !chatIdOf_pair. unfold String.ltb.
  rewrite (String.compare_antisym a b).
  destruct (String.compare b a) eqn:E; cbn; try done.
  apply String.compare_eq_iff in E. by subst.
Qed.

Lemma history_swap `{E : Engine} (me userId : string) (p L : Z) (db : Db) :
  history userId me p L db = history me userId p L db.
Proof. unfold history, getChat. by rewrite (chatIdOf_comm userId me). Qed.

(** The element that is strictly greatest comes first in a
    greatest-first arrangement. *)
Lemma sorted_head_max {A} (key : A -> Z) (s l : list A) (x : A) :
  Permutation s l → StronglySorted (descending key) s → x ∈ l →
  (∀ y, y ∈ l → y = x ∨ key y < key x) →
  ∃ rest, s = x :: rest.
Proof.
  intros Hp Hs Hx Hmax. rewrite <- Hp in Hx.
  destruct s as [|y rest]; [by apply elem_of_nil in Hx|].
  exists rest. f_equal.
  destruct (Hmax y) as [->|Hlt]; [rewrite <- Hp; by left|done|].
  apply elem_of_cons in Hx as [->|Hx]; [done|].
  apply StronglySorted_cons in Hs as [Hall _].
  rewrite Forall_forall in Hall. specialize (Hall _ Hx). unfold descending in Hall. lia.
Qed.

(** X8: Send, then fetch: after a message is sent at a time later than every
    message of the conversation, page 1 of the history ends with that
    message, for the sender and for the recipient alike, whatever the
    positive limit. *)
Theorem sent_message_ends_first_page `{E : Engine} (db : Db) (now : Z)
    (oid me userId c : string) (t : option string) (L : Z) :
  conforming E → connected db = true → 0 < L →
  (∀ m, m ∈ messages db → in_chat (chatIdOf (Some me) (Some userId)) m = true →
        createdAt m < now) →
  let db' := snd (post now oid me {| bodyRecipient := Some userId;
                                     bodyContent := Some c; bodyType := t |} db) in
  ∃ older m,
    history me userId 1 L db' = older ++ [m] ∧
    history userId me 1 L db' = older ++ [m] ∧
    _id m = oid ∧ sender m = me ∧ recipient m = userId ∧ content m = c ∧
    createdAt m = now ∧ isRead m = false.
Proof.
  intros HE Hc HL Hnew. rewrite post_saved by done. cbn [snd].
  set (m := {| _id := oid; sender := me; recipient := userId; content := c;
               messageType := default "text" t;
               chatId := chatIdOf (Some me) (Some userId);
               isRead := false; readAt := None; createdAt := now |}).
  set (db' := {| connected := connected db; messages := messages db ++ [m];
                 users := users db |}).
  assert (Hc' : connected db' = true) by done.
  set (log := List.filter (in_chat (chatIdOf (Some me) (Some userId))) (messages db)).
  assert (Hlog' : List.filter (in_chat (chatIdOf (Some me) (Some userId))) (messages db')
                  = log ++ [m]).
  { subst db'. cbn [messages]. rewrite List.filter_app. cbn [List.filter].
    unfold in_chat at 2. cbn [chatId m]. by rewrite String.eqb_refl. }
  destruct (HE Message createdAt (log ++ [m])) as [Hperm Hsorted].
  destruct (sorted_head_max createdAt _ (log ++ [m]) m Hperm Hsorted) as [rest Hrest].
  { apply elem_of_app. right. by left. }
  { intros y Hy. apply elem_of_app in Hy as [Hy|Hy].
    - right. apply list_elem_of_In, filter_In in Hy as [Hy Hin].
      apply list_elem_of_In in Hy. cbn [createdAt m]. by apply Hnew.
    - left. by apply list_elem_of_singleton in Hy. }
  set (n := Z.to_nat L).
  assert (HLn : L = Z.of_nat n) by lia. assert (Hn : (0 < n)%nat) by lia.
  clearbody n. exists (rev (firstn (n - 1) rest)), m.
  rewrite (history_swap me userId), HLn.
  change 1 with (Z.of_nat 1).
  rewrite history_page by done.
  rewrite Hlog', Hrest. cbn [Nat.mul skipn].
  destruct n as [|k]; [lia|].
  cbn [firstn rev]. replace (S k - 1)%nat with k by lia.
  done.
Qed.

Lemma sent_message_ends_first_page_witness :
  let E := stable in
  let db' := snd (post 9 "m3" "a" {| bodyRecipient := Some "b"; bodyContent := Some "hey";
                                     bodyType := None |} Sample.two) in
  conforming E ∧ connected Sample.two = true ∧
  ∃ older m, history "b" "a" 1 50 db' = older ++ [m] ∧ content m = "hey".
Proof.
  cbv zeta.
  split; [exact stable_conforming|]. split; [reflexivity|].
  destruct (sent_message_ends_first_page (E := stable) Sample.two 9 "m3" "a" "b" "hey"
              None 50 stable_conforming eq_refl ltac:(lia))
    as (older & m & _ & H & _ & _ & _ & Hcontent & _).
  { intros m Hm _. cbn [Sample.two messages] in Hm.
    apply elem_of_cons in Hm as [->|Hm]; [vm_compute; reflexivity|].
    apply elem_of_cons in Hm as [->|Hm]; [vm_compute; reflexivity|].
    by apply elem_of_nil in Hm. }
  exists older, m. split; [exact H|exact Hcontent].
Defined.

Lemma unread_connected (me : string) (db : Db) :
  connected db = true →
  getUnreadCount me db
  = ({| status := 200;
        body := CountJson (length (List.filter (unreadFor me) (messages db))) |}, db).
Proof.
  intros Hc. unfold getUnreadCount, try_catch, countDocuments, bind.
  by rewrite read_connected.
Qed.

Lemma unread_is (me : string) (db : Db) :
  connected db = true → unread me db = length (List.filter (unreadFor me) (messages db)).
Proof. intros Hc. unfold unread. by rewrite unread_connected. Qed.

(** X9: Sending a message raises the recipient's unread count by exactly
    one and leaves every other user's unread count as it was. *)
Theorem send_adds_one_unread (db : Db) (now : Z) (oid me r c : string)
    (t : option string) :
  connected db = true →
  let db' := snd (post now oid me {| bodyRecipient := Some r; bodyContent := Some c;
                                     bodyType := t |} db) in
  unread r db' = S (unread r db) ∧
  ∀ u, u ≠ r → unread u db' = unread u db.
Proof.
  intros Hc. rewrite post_saved by done. cbn [snd].
  assert (Hu : ∀ u, unread u {| connected := connected db;
                                messages := messages db ++
                                  [{| _id := oid; sender := me; recipient := r;
                                      content := c; messageType := default "text" t;
                                      chatId := chatIdOf (Some me) (Some r);
                                      isRead := false; readAt := None;
                                      createdAt := now |}];
                                users := users db |}
               = (unread u db + if String.eqb r u then 1 else 0)%nat).
  { intros u. rewrite !unread_is by done. cbn [messages].
    rewrite List.filter_app, length_app. f_equal.
    cbn [List.filter]. unfold unreadFor at 1. cbn [recipient isRead Bool.eqb].
    rewrite andb_true_r. by destruct (String.eqb r u). }
  split.
  - rewrite Hu, String.eqb_refl. lia.
  - intros u Hne. rewrite Hu. apply not_eq_sym, String.eqb_neq in Hne.
    rewrite Hne. lia.
Qed.

Lemma send_adds_one_unread_witness :
  let db' := snd (post 9 "m3" "a" {| bodyRecipient := Some "b"; bodyContent := Some "hey";
                                     bodyType := None |} Sample.two) in
  connected Sample.two = true ∧
  unread "b" db' = S (unread "b" Sample.two) ∧ unread "a" db' = unread "a" Sample.two.
Proof.
  cbv zeta. split; [reflexivity|].
  destruct (send_adds_one_unread Sample.two 9 "m3" "a" "b" "hey" None eq_refl)
    as [H1 H2].
  split; [exact H1|]. apply H2. discriminate.
Defined.

Lemma unreadFor_marked (chat me u : string) (now : Z) (l : list Message) :
  (length (List.filter (unreadFor u)
             (map (fun m => if unreadIn chat me m then markOne now m else m) l))
   + (if String.eqb u me then length (List.filter (unreadIn chat me) l) else 0))%nat
  = length (List.filter (unreadFor u) l).
Proof.
  induction l as [|m l IH]; [by destruct (String.eqb u me)|].
  cbn [map List.filter].
  destruct (unreadIn chat me m) eqn:Em.
  - apply unreadIn_true in Em as Hm. destruct Hm as (_ & Hr & Hi).
    assert (H1 : unreadFor u (markOne now m) = false)
      by (unfold unreadFor; cbn; apply andb_false_r).
    assert (H2 : unreadFor u m = String.eqb u me).
    { unfold unreadFor. rewrite Hr, Hi. cbn [Bool.eqb].
      rewrite andb_true_r. apply String.eqb_sym. }
    rewrite H1, H2. destruct (String.eqb u me); cbn [length]; lia.
  - destruct (unreadFor u m); cbn [length]; destruct (String.eqb u me); lia.
Qed.

(** X10: Marking a conversation read lowers the reader's unread count by the
    number of messages it marks (the messages of that conversation
    addressed to the reader and unread) and leaves every other user's
    unread count as it was. *)
Theorem markRead_lowers_unread (db : Db) (now : Z) (me chat : string) :
  connected db = true →
  let db1 := snd (putRead now me chat db) in
  (unread me db1 + length (List.filter (unreadIn chat me) (messages db)))%nat
  = unread me db ∧
  ∀ u, u ≠ me → unread u db1 = unread u db.
Proof.
  intros Hc. unfold putRead, try_catch, updateMany, bind, online. rewrite Hc.
  cbn [snd ret].
  assert (Hu : ∀ u, (unread u {| connected := connected db;
                                 messages := map (fun m => if unreadIn chat me m
                                                           then markOne now m else m)
                                               (messages db);
                                 users := users db |}
                     + (if String.eqb u me
                        then length (List.filter (unreadIn chat me) (messages db))
                        else 0))%nat
                    = unread u db).
  { intros u. rewrite !unread_is by done. cbn [messages]. apply unreadFor_marked. }
  split.
  - specialize (Hu me). by rewrite String.eqb_refl in Hu.
  - intros u Hne. specialize (Hu u). apply String.eqb_neq in Hne.
    rewrite Hne in Hu. lia.
Qed.

Lemma markRead_lowers_unread_witness :
  let db1 := snd (putRead 9 "b" "a_b" Sample.two) in
  connected Sample.two = true ∧
  unread "b" Sample.two = 1%nat ∧ unread "b" db1 = 0%nat ∧
  unread "a" db1 = unread "a" Sample.two.
Proof.
  cbv zeta. split; [reflexivity|].
  destruct (markRead_lowers_unread Sample.two 9 "b" "a_b" eq_refl) as [H1 H2].
  split; [vm_compute; reflexivity|].
  split; [vm_compute; reflexivity|].
  apply H2. discriminate.
Defined.

Lemma pipeline_last_in `{E : Engine} (me : string) (docs : list Message) (g : Group.t) :
  conforming E → g ∈ pipeline me docs →
  Group.lastMessage g ∈ docs ∧ matching me (Group.lastMessage g) = true ∧
  chatId (Group.lastMessage g) = Group._id g ∧
  Group.unreadCount g = length (List.filter (unreadIn (Group._id g) me) docs).
Proof.
  intros HE Hin.
  destruct (pipeline_groups me docs HE) as (Hp1 & _ & (_ & Hg & _) & Hp2 & _).
  rewrite Hp2 in Hin. destruct (Hg g Hin) as [(l1 & l2 & Heq & Hchat & _) Hcnt].
  assert (Hm : Group.lastMessage g
               ∈ sort_by Message createdAt (List.filter (matching me) docs)).
  { rewrite Heq. apply elem_of_app. right. by left. }
  rewrite Hp1 in Hm. apply list_elem_of_In, filter_In in Hm as [Hm Hmatch].
  apply list_elem_of_In in Hm.
  split; [done|]. split; [done|]. split; [done|].
  rewrite Hcnt, (Permutation_length (filter_perm _ _ _ Hp1)).
  by rewrite (filter_filter_impl _ _ _ (unreadIn_matching _ me)).
Qed.

(** The conversation-list reply in closed form. *)
Lemma getChats_reply `{E : Engine} (db : Db) (me : string) :
  conforming E → connected db = true → NoDup (map _id (messages db)) → referenced db →
  getChats me db
  = ({| status := 200;
        body := ChatsJson (map (entry me (users db)) (pipeline me (messages db))) |}, db).
Proof.
  intros HE Hc Hnd Href.
  unfold getChats, try_catch, bind, aggregate. rewrite read_connected by done.
  rewrite (all_map (summary me) (entry me (users db))); [done|].
  intros g Hin. destruct (pipeline_last_in me _ g HE Hin) as (Hm & _).
  destruct (Href _ Hm) as [Hsu Hru]. by apply summary_found.
Qed.

Lemma sum_accumulate (me : string) (m : Message) (gs : list Group.t) :
  sum_list_with Group.unreadCount (accumulate me m gs)
  = (sum_list_with Group.unreadCount gs + cond me m)%nat.
Proof.
  induction gs as [|g gs IH]; cbn [accumulate sum_list_with]; [done|].
  destruct (String.eqb (Group._id g) (chatId m)); cbn [sum_list_with added Group.unreadCount].
  - lia.
  - rewrite IH. lia.
Qed.

Lemma sum_group (me : string) (l : list Message) :
  sum_list_with Group.unreadCount (group me l) = length (List.filter (unreadFor me) l).
Proof.
  induction l as [|m l IH] using rev_ind; [done|].
  rewrite group_snoc, sum_accumulate, IH, List.filter_app, length_app.
  f_equal. cbn [List.filter]. unfold cond, unreadFor.
  by destruct (String.eqb (recipient m) me && Bool.eqb (isRead m) false).
Qed.

Lemma sum_map {A B} (f : B -> nat) (g : A -> B) (l : list A) :
  sum_list_with f (map g l) = sum_list_with (fun a => f (g a)) l.
Proof. induction l as [|a l IH]; cbn [map sum_list_with]; [done|by rewrite IH]. Qed.

Lemma unreadFor_matching (me : string) (m : Message) :
  unreadFor me m = true → matching me m = true.
Proof.
  unfold unreadFor, matching. intros H. apply andb_true_iff in H as [H _].
  rewrite H. apply orb_true_r.
Qed.

(** X11: The unread counts shown in a user's conversation list add up to the
    number the unread-count route gives that user. *)
Theorem chats_unread_sum `{E : Engine} (db : Db) (me : string) :
  conforming E → connected db = true → NoDup (map _id (messages db)) → referenced db →
  ∃ chats n,
    getChats me db = ({| status := 200; body := ChatsJson chats |}, db) ∧
    getUnreadCount me db = ({| status := 200; body := CountJson n |}, db) ∧
    sum_list_with Chat.unreadCount chats = n.
Proof.
  intros HE Hc Hnd Href. eexists _, _.
  split; [by apply getChats_reply|]. split; [by apply unread_connected|].
  destruct (pipeline_groups me (messages db) HE) as (Hp1 & _ & _ & Hp2 & _).
  rewrite sum_map. cbn [entry Chat.unreadCount].
  change (fun a => Group.unreadCount a) with Group.unreadCount.
  rewrite Hp2, sum_group.
  rewrite (Permutation_length (filter_perm _ _ _ Hp1)).
  by rewrite (filter_filter_impl _ _ _ (unreadFor_matching me)).
Qed.

Lemma sample_two_sound :
  NoDup (map _id (messages Sample.two)) ∧ referenced Sample.two.
Proof.
  split; [apply (bool_decide_unpack _); vm_compute; exact I|].
  intros m Hm. cbn [Sample.two messages] in Hm.
  apply elem_of_cons in Hm as [->|Hm]; [vm_compute; eauto|].
  apply elem_of_cons in Hm as [->|Hm]; [vm_compute; eauto|].
  by apply elem_of_nil in Hm.
Qed.

Lemma chats_unread_sum_witness :
  let E := stable in
  conforming E ∧ connected Sample.two = true ∧
  ∃ chats, getChats "b" Sample.two
             = ({| status := 200; body := ChatsJson chats |}, Sample.two) ∧
           sum_list_with Chat.unreadCount chats = unread "b" Sample.two.
Proof.
  cbv zeta. split; [exact stable_conforming|]. split; [reflexivity|].
  destruct (chats_unread_sum (E := stable) Sample.two "b" stable_conforming eq_refl
              (proj1 sample_two_sound) (proj2 sample_two_sound))
    as (chats & n & Hchats & Hn & Hsum).
  exists chats. split; [exact Hchats|].
  unfold unread. rewrite Hn. exact Hsum.
Defined.




(** X13: A user who has neither sent nor received a message gets an empty
    conversation list and an unread count of 0, both with status 200. *)
Theorem no_messages_empty_list `{E : Engine} (db : Db) (me : string) :
  conforming E → connected db = true →
  (∀ m, m ∈ messages db → sender m ≠ me ∧ recipient m ≠ me) →
  getChats me db = ({| status := 200; body := ChatsJson [] |}, db) ∧
  getUnreadCount me db = ({| status := 200; body := CountJson 0 |}, db).
Proof.
  intros HE Hc Hnone.
  assert (Hf : List.filter (matching me) (messages db) = []).
  { induction (messages db) as [|m l IH]; [done|]. cbn [List.filter].
    destruct (matching me m) eqn:Em.
    - apply matching_true in Em. destruct (Hnone m) as [H1 H2]; [by left|].
      by destruct Em.
    - apply IH. intros x Hx. apply Hnone. by right. }
  assert (Hnil : ∀ A (key : A -> Z), sort_by A key [] = []).
  { intros A key. destruct (HE A key []) as [Hp _]. by apply Permutation_nil. }
  split.
  - unfold getChats, try_catch, bind, aggregate. rewrite read_connected by done.
    unfold pipeline. rewrite Hf, Hnil. cbn [group fold_left]. by rewrite Hnil.
  - rewrite unread_connected by done.
    by rewrite <- (filter_filter_impl _ _ _ (unreadFor_matching me)), Hf.
Qed.

Lemma no_messages_empty_list_witness :
  let E := stable in
  conforming E ∧ connected Sample.two = true ∧
  getChats "carol" Sample.two
  = ({| status := 200; body := ChatsJson [] |}, Sample.two).
Proof.
  cbv zeta. split; [exact stable_conforming|]. split; [reflexivity|].
  apply (no_messages_empty_list (E := stable) Sample.two "carol" stable_conforming eq_refl).
  intros m Hm. cbn [Sample.two messages] in Hm.
  apply elem_of_cons in Hm as [->|Hm]; [split; discriminate|].
  apply elem_of_cons in Hm as [->|Hm]; [split; discriminate|].
  by apply elem_of_nil in Hm.
Defined.

Lemma all_fails {A B} (f : A -> Task B) (l : list A) (db : Db) (a : A) :
  (∀ x, (∃ e, f x db = inl e) ∨ (∃ c, f x db = inr (c, db))) →
  a ∈ l → (∃ e, f a db = inl e) →
  ∃ e, all (map f l) db = inl e.
Proof.
  intros Hf Hin Hfail. induction l as [|x l IH]; [by apply elem_of_nil in Hin|].
  cbn [map all]. unfold bind at 1.
  destruct (Hf x) as [[e He]|[c Hc]]; [rewrite He; eauto|].
  apply elem_of_cons in Hin as [->|Hin].
  - destruct Hfail as [e He]. congruence.
  - rewrite Hc. unfold bind at 1. destruct (IH Hin) as [e ->]. eauto.
Qed.

(** X14: One dangling reference breaks the whole list: if the newest message
    of one of the user's conversations was sent by a user whose document
    no longer exists (or was sent by the user to a recipient whose
    document no longer exists), the conversation-list route replies 500
    and lists nothing, whatever the other conversations are. *)
Theorem dangling_user_breaks_list `{E : Engine} (db : Db) (me : string) (m : Message) :
  conforming E → connected db = true → NoDup (map _id (messages db)) →
  m ∈ messages db → (sender m = me ∨ recipient m = me) →
  (∀ x, x ∈ messages db → chatId x = chatId m → x = m ∨ createdAt x < createdAt m) →
  (findUser (sender m) (users db) = None ∨
   sender m = me ∧ findUser (recipient m) (users db) = None) →
  getChats me db = (server_error, db).
Proof.
  intros HE Hc Hnd Hm Hmine Hnewest Hgone.
  destruct (pipeline_groups me (messages db) HE) as (Hp1 & Hs1 & (_ & Hg & Hcov) & Hp2 & _).
  set (s1 := sort_by Message createdAt (List.filter (matching me) (messages db))) in *.
  assert (Hms : m ∈ s1).
  { rewrite Hp1. apply list_elem_of_In, filter_In. split; [by apply list_elem_of_In|].
    by apply matching_true. }
  pose proof (Hcov _ Hms) as Hgm. apply list_elem_of_In, in_map_iff in Hgm.
  destruct Hgm as (g & Hgid & Hgin). apply list_elem_of_In in Hgin.
  assert (Hlast : Group.lastMessage g = m).
  { destruct (Hg g Hgin) as [(l1 & l2 & Heq & Hchat & Hpre) _].
    assert (Hl : Group.lastMessage g ∈ messages db).
    { assert (Hl : Group.lastMessage g ∈ s1)
        by (rewrite Heq; apply elem_of_app; right; by left).
      rewrite Hp1 in Hl. apply list_elem_of_In, filter_In in Hl as [Hl _].
      by apply list_elem_of_In. }
    destruct (Hnewest _ Hl) as [?|Hlt]; [congruence|done|].
    exfalso. rewrite Heq in Hms, Hs1. apply StronglySorted_app_1_r in Hs1.
    apply elem_of_app in Hms as [Hms|Hms]; [apply Hpre in Hms; congruence|].
    apply elem_of_cons in Hms as [Hms|Hms]; [rewrite Hms in Hlt; lia|].
    apply StronglySorted_cons in Hs1 as [Hall _].
    rewrite Forall_forall in Hall. specialize (Hall _ Hms).
    unfold descending in Hall. lia. }
  assert (Hfail : ∃ e, summary me g db = inl e).
  { unfold summary, findById, bind at 1. rewrite read_connected by done.
    rewrite Hlast, find_by_id by done.
    cbn [populated senderDoc recipientDoc has_path existsb String.eqb Ascii.eqb
         Bool.eqb orb].
    unfold ref. destruct Hgone as [Hs|[Hs Hr]].
    - rewrite Hs. unfold throw. eauto.
    - destruct (findUser (sender m) (users db)) as [us|] eqn:Eus;
        [|unfold throw; eauto].
      cbn [refKey]. rewrite (findUser_key _ _ _ Eus), Hs, String.eqb_refl, Hr.
      unfold throw. eauto. }
  assert (Hgp : g ∈ pipeline me (messages db)) by (by rewrite Hp2).
  destruct (all_fails (summary me) _ db g (fun x => summary_keeps me x db) Hgp Hfail)
    as [e He].
  unfold getChats, try_catch, bind, aggregate. rewrite read_connected by done.
  by rewrite He.
Qed.

Lemma dangling_user_breaks_list_witness :
  let E := stable in
  conforming E ∧ connected Cases.orphaned = true ∧
  findUser (sender Sample.m2) (users Cases.orphaned) = None ∧
  getChats "a" Cases.orphaned = (server_error, Cases.orphaned).
Proof.
  cbv zeta. split; [exact stable_conforming|]. split; [reflexivity|].
  split; [reflexivity|].
  apply (dangling_user_breaks_list (E := stable) Cases.orphaned "a" Sample.m2
           stable_conforming eq_refl).
  - apply (bool_decide_unpack _). vm_compute. exact I.
  - right. by left.
  - by right.
  - intros x Hx _. cbn [Cases.orphaned messages] in Hx.
    apply elem_of_cons in Hx as [->|Hx]; [right; vm_compute; reflexivity|].
    apply elem_of_cons in Hx as [->|Hx]; [by left|].
    by apply elem_of_nil in Hx.
  - by left.
Defined.

Lemma plain_split (a c b d : string) :
  plainId a = true → plainId c = true →
  String.append a (String.append "_" b) = String.append c (String.append "_" d) →
  a = c ∧ b = d.
Proof.
  revert c. induction a as [|x a IH]; intros [|y c] Ha Hc Heq; cbn [plainId] in *.
  - injection Heq as Heq. split; [done|exact Heq].
  - injection Heq as Hxy _. subst y. by rewrite String.eqb_refl in Hc.
  - injection Heq as Hxy _. subst x. by rewrite String.eqb_refl in Ha.
  - injection Heq as Hxy Heq. subst y.
    apply andb_true_iff in Ha as [_ Ha]. apply andb_true_iff in Hc as [_ Hc].
    destruct (IH c Ha Hc Heq) as [-> ->]. done.
Qed.

Lemma chatIdOf_pair_inj (a b c d : string) :
  plainId a = true → plainId b = true → plainId c = true → plainId d = true →
  chatIdOf (Some a) (Some b) = chatIdOf (Some c) (Some d) →
  a = c ∧ b = d ∨ a = d ∧ b = c.
Proof.
  intros Ha Hb Hc Hd. rewrite !chatIdOf_pair.
  destruct (String.ltb b a), (String.ltb d c); intros Heq;
    apply plain_split in Heq as [-> ->]; auto.
Qed.

(** X15: The conversation key identifies the pair of users, as long as no id
    contains the separator [_]: two pairs with the same key are the same
    pair, in one order or the other. *)
Theorem chatId_identifies_pair (a b c d : string) :
  plainId a = true → plainId b = true → plainId c = true → plainId d = true →
  chatIdOf (Some a) (Some b) = chatIdOf (Some c) (Some d) →
  a = c ∧ b = d ∨ a = d ∧ b = c.
Proof. apply chatIdOf_pair_inj. Qed.

Lemma chatId_identifies_pair_witness :
  plainId "a" = true ∧ plainId "b" = true ∧
  chatIdOf (Some "a") (Some "b") = chatIdOf (Some "b") (Some "a") ∧
  ("a" = "b" ∧ "b" = "a" ∨ "a" = "a" ∧ "b" = "b").
Proof.
  split; [reflexivity|]. split; [reflexivity|]. split; [reflexivity|].
  apply (chatId_identifies_pair "a" "b" "b" "a"); reflexivity.
Defined.

(** What a request does to the database: nothing, or it appends the
    message it stored, or it marks messages read. *)
Lemma handle_effect `{E : Engine} (r : Request) (db : Db) :
  snd (handle r db) = db ∨
  (∃ now oid me rcp c ty,
     snd (handle r db)
     = {| connected := connected db;
          messages := messages db ++
            [{| _id := oid; sender := me; recipient := rcp; content := c;
                messageType := ty; chatId := chatIdOf (Some me) (Some rcp);
                isRead := false; readAt := None; createdAt := now |}];
          users := users db |}) ∨
  (∃ now me chat,
     snd (handle r db)
     = {| connected := connected db;
          messages := map (fun m => if unreadIn chat me m then markOne now m else m)
                        (messages db);
          users := users db |}).
Proof.
  destruct r as [now oid me b|me u q|now me chat|me|me]; cbn [handle].
  - destruct (connected db) eqn:Hc.
    + destruct b as [[rcp|] [c|] ty].
      * right. left. exists now, oid, me, rcp, c, (default "text" ty).
        rewrite post_saved by done. cbn [snd]. by rewrite Hc.
      * left. unfold post, try_catch, bind, save, validate. by cbn.
      * left. unfold post, try_catch, bind, save, validate. by cbn.
      * left. unfold post, try_catch, bind, save, validate. by cbn.
    + left. unfold post, try_catch, bind, save, validate.
      destruct (bodyRecipient b), (bodyContent b);
        cbn [draftRecipient draftContent]; try done.
      unfold bind, online. by rewrite Hc.
  - left. apply getChat_keeps.
  - unfold putRead, try_catch, updateMany, bind, online.
    destruct (connected db) eqn:Hc; [|by left]. right. right.
    exists now, me, chat. cbn [snd ret]. by rewrite Hc.
  - left. apply getUnreadCount_keeps.
  - left. apply getChats_keeps.
Qed.

Lemma handle_keyed `{E : Engine} (r : Request) (db : Db) :
  keyed db → keyed (snd (handle r db)).
Proof.
  intros Hk.
  destruct (handle_effect r db)
    as [->|[(now & oid & me & rcp & c & ty & ->)|(now & me & chat & ->)]]; [done|..].
  - intros m Hm. cbn [messages] in Hm. apply elem_of_app in Hm as [Hm|Hm]; [by apply Hk|].
    by apply list_elem_of_singleton in Hm as ->.
  - intros m' Hm'. cbn [messages] in Hm'.
    apply list_elem_of_In, in_map_iff in Hm' as (m & <- & Hm).
    apply list_elem_of_In, Hk in Hm. by destruct (unreadIn chat me m).
Qed.

(** X16: Every stored message keeps the conversation key of its own sender
    and recipient: if that holds of a database, it holds after any
    sequence of requests. *)
Theorem serve_keeps_keys `{E : Engine} (rs : list Request) (db : Db) :
  keyed db → keyed (serve rs db).
Proof.
  revert db. induction rs as [|r rs IH]; intros db Hk; cbn [serve]; [done|].
  by apply IH, handle_keyed.
Qed.

Lemma sample_two_keyed : keyed Sample.two.
Proof.
  intros m Hm. cbn [Sample.two messages] in Hm.
  apply elem_of_cons in Hm as [->|Hm]; [reflexivity|].
  apply elem_of_cons in Hm as [->|Hm]; [reflexivity|].
  by apply elem_of_nil in Hm.
Qed.

Lemma serve_keeps_keys_witness :
  let E := stable in
  keyed Sample.two ∧
  keyed (serve [Send 9 "m3" "a" {| bodyRecipient := Some "b"; bodyContent := Some "hey";
                                   bodyType := None |};
                MarkRead 10 "b" "a_b"; ListChats "b"] Sample.two).
Proof.
  cbv zeta. split; [exact sample_two_keyed|].
  apply (serve_keeps_keys (E := stable)). exact sample_two_keyed.
Defined.

Lemma select_subset `{E : Engine} (q : Query) (docs : list Message) (m : Message) :
  conforming E → m ∈ select q docs → m ∈ List.filter (conditions q) docs.
Proof.
  intros HE. unfold select.
  set (matched := List.filter (conditions q) docs).
  set (ordered := if sorted q then sort_by Message createdAt matched else matched).
  set (skipped := match skipOpt q with
                  | Some k => skipn (Z.to_nat k) ordered
                  | None => ordered
                  end).
  assert (H1 : ∀ x, x ∈ ordered → x ∈ matched).
  { intros x Hx. subst ordered. destruct (sorted q); [|done].
    destruct (HE Message createdAt matched) as [Hp _]. by rewrite <- Hp. }
  assert (H2 : ∀ x, x ∈ skipped → x ∈ ordered).
  { intros x Hx. subst skipped. destruct (skipOpt q); [|done].
    by apply subseteq_drop in Hx. }
  intros Hm. apply H1, H2.
  destruct (limitOpt q) as [n|]; [|done].
  destruct (n =? 0); [done|]. by apply subseteq_take in Hm.
Qed.

Lemma getChat_docs `{E : Engine} (me userId : string) (q : PageQuery) (db : Db)
    (m : Message) :
  conforming E → m ∈ docsOf (fst (getChat me userId q db)) →
  m ∈ messages db ∧ chatId m = chatIdOf (Some me) (Some userId).
Proof.
  intros HE. unfold getChat, try_catch, exec, bind, online, ret.
  destruct (connected db); [|intros H; by apply elem_of_nil in H].
  destruct (match skipOpt _ with Some k => k <? 0 | None => false end);
    [intros H; by apply elem_of_nil in H|].
  cbn [fst docsOf body]. rewrite <- map_rev, doc_populated.
  intros Hm. apply list_elem_of_In, in_rev, list_elem_of_In in Hm.
  apply (select_subset _ _ _ HE), list_elem_of_In, filter_In in Hm as [Hm Hc].
  cbn [chatQuery skip Mongoose.limit sort populate find conditions] in Hc.
  apply String.eqb_eq in Hc. split; [by apply list_elem_of_In|done].
Qed.

(** X17: The history never shows a third party's messages: when the stored
    messages carry the key of their own sender and recipient and no id
    contains [_], every message in a history reply for [me] and
    [userId], whatever the page and limit, was sent by one of the two
    to the other. *)
Theorem history_only_between_pair `{E : Engine} (db : Db) (me userId : string)
    (q : PageQuery) (m : Message) :
  conforming E → keyed db → plainId me = true → plainId userId = true →
  (∀ x, x ∈ messages db → plainId (sender x) = true ∧ plainId (recipient x) = true) →
  m ∈ docsOf (fst (getChat me userId q db)) →
  sender m = me ∧ recipient m = userId ∨ sender m = userId ∧ recipient m = me.
Proof.
  intros HE Hk Hme Hu Hplain Hm.
  apply (getChat_docs _ _ _ _ _ HE) in Hm as [Hm Hc].
  destruct (Hplain m Hm) as [Hs Hr]. rewrite (Hk m Hm) in Hc.
  by apply chatIdOf_pair_inj.
Qed.

Lemma history_only_between_pair_witness :
  let E := stable in
  conforming E ∧ keyed Sample.two ∧
  (sender Sample.m1 = "a" ∧ recipient Sample.m1 = "b" ∨
   sender Sample.m1 = "b" ∧ recipient Sample.m1 = "a").
Proof.
  cbv zeta. split; [exact stable_conforming|]. split; [exact sample_two_keyed|].
  apply (history_only_between_pair (E := stable) Sample.two "a" "b"
           {| page := None; limit := None |} Sample.m1 stable_conforming
           sample_two_keyed eq_refl eq_refl).
  - intros x Hx. cbn [Sample.two messages] in Hx.
    apply elem_of_cons in Hx as [->|Hx]; [split; reflexivity|].
    apply elem_of_cons in Hx as [->|Hx]; [split; reflexivity|].
    by apply elem_of_nil in Hx.
  - vm_compute. by left.
Defined.

Lemma kept_refl (m : Message) : kept m m.
Proof. unfold kept. tauto. Qed.

Lemma kept_trans (a b c : Message) : kept a b → kept b c → kept a c.
Proof.
  unfold kept. intros (?&?&?&?&?&?&?&Hab) (?&?&?&?&?&?&?&Hbc).
  repeat (split; [congruence|]).
  intros [Ha|Hc].
  - assert (b = a) by (apply Hab; by left). subst b. apply Hbc. by left.
  - assert (c = b) by (apply Hbc; by right). subst c. apply Hab. by right.
Qed.

Lemma continues_refl (db : Db) : continues db db.
Proof.
  split; [done|]. split; [done|]. exists (messages db), [].
  split; [by rewrite app_nil_r|]. apply Forall2_same_length_lookup_2; [done|].
  intros i x y Hx Hy. assert (x = y) by congruence. subst. apply kept_refl.
Qed.

Lemma continues_trans (a b c : Db) : continues a b → continues b c → continues a c.
Proof.
  intros (Hu1 & Hc1 & o1 & r1 & Hm1 & Hk1) (Hu2 & Hc2 & o2 & r2 & Hm2 & Hk2).
  split; [congruence|]. split; [congruence|].
  rewrite Hm1 in Hk2. apply Forall2_app_inv_l in Hk2 as (p1 & p2 & Hp1 & Hp2 & ->).
  exists p1, (p2 ++ r2). split; [by rewrite Hm2, app_assoc|].
  clear -Hk1 Hp1. revert p1 Hp1. induction Hk1 as [|x y l k Hxy _ IH]; intros p1 Hp1.
  - inversion Hp1. constructor.
  - inversion Hp1 as [|? z ? p1' Hyz Hrest]; subst. constructor.
    + by eapply kept_trans.
    + by apply IH.
Qed.

Lemma handle_continues `{E : Engine} (r : Request) (db : Db) :
  continues db (snd (handle r db)).
Proof.
  destruct (handle_effect r db)
    as [->|[(now & oid & me & rcp & c & ty & ->)|(now & me & chat & ->)]].
  - apply continues_refl.
  - split; [done|]. split; [done|]. eexists _, _. cbn [messages]. split; [done|].
    apply Forall2_same_length_lookup_2; [done|].
    intros i x y Hx Hy. assert (x = y) by congruence. subst. apply kept_refl.
  - split; [done|]. split; [done|]. eexists _, []. cbn [messages].
    split; [by rewrite app_nil_r|].
    induction (messages db) as [|m l IH]; cbn [map]; constructor; [|exact IH].
    destruct (unreadIn chat me m) eqn:Em; [|apply kept_refl].
    apply unreadIn_true in Em as (_ & _ & Hi).
    unfold kept. cbn [markOne _id sender recipient content messageType chatId
                      createdAt isRead].
    repeat (split; [done|]). intros [?|?]; congruence.
Qed.

(** X18: The message log only grows and only by marking: after any sequence
    of requests the messages that were stored are still there, in the
    same places, with the same id, sender, recipient, content, type,
    conversation key and creation time, and new messages come after
    them; a message that was read is unchanged (it stays read, with the
    same [readAt]), and a message that is still unread is unchanged.
    The user collection is never written. *)
Theorem log_only_grows `{E : Engine} (rs : list Request) (db : Db) :
  continues db (serve rs db).
Proof.
  revert db. induction rs as [|r rs IH]; intros db; cbn [serve].
  - apply continues_refl.
  - eapply continues_trans; [apply handle_continues|apply IH].
Qed.

End RoutesMore.

(** ** The client *)

Section ApiFacts.
Import Model Api.
Context {P R : Type}.

Lemma retryLoop_calls (apiCall : nat -> ApiError P + R) (maxRetries delay : Z)
    (fuel : nat) :
  ∀ i slept last,
    (i ≤ calls (retryLoop apiCall maxRetries delay fuel i slept last) ≤ i + fuel)%nat.
Proof.
  induction fuel as [|fuel IH]; intros i slept last; cbn [retryLoop calls]; [lia|].
  destruct (apiCall i) as [e|r]; cbn [calls]; [|lia].
  destruct (isAuthError e || (Z.of_nat i =? maxRetries - 1)); cbn [calls]; [lia|].
  specialize (IH (S i) (slept + delay * (Z.of_nat i + 1)) (Some e)). lia.
Qed.

(** X19: [retryRequest] never calls the API more than [maxRetries] times (3
    by default); with a [maxRetries] of 0 or less it does not call it at
    all and throws [undefined]. *)
Theorem retry_calls_bounded (apiCall : nat -> ApiError P + R) (maxRetries delay : option Z) :
  (calls (retryRequest apiCall maxRetries delay) ≤ Z.to_nat (default 3%Z maxRetries))%nat ∧
  (default 3 maxRetries <= 0 →
   retryRequest apiCall maxRetries delay
   = {| settled := Thrown None; calls := 0; waited := 0 |}).
Proof.
  unfold retryRequest. split.
  - pose proof (retryLoop_calls apiCall (default 3 maxRetries) (default 1000 delay)
                  (Z.to_nat (default 3 maxRetries)) 0 0 None). lia.
  - intros H. replace (Z.to_nat (default 3 maxRetries)) with 0%nat by lia. done.
Qed.

(** How the loop ends at attempt [i + k] after [k] failures that are
    neither authentication errors nor the last allowed attempt. *)
Lemma retryLoop_ends (apiCall : nat -> ApiError P + R) (maxRetries delay : Z) (k : nat) :
  ∀ fuel i slept last,
    (k < fuel)%nat →
    (∀ j, (j < k)%nat → ∃ e, apiCall (i + j)%nat = inl e ∧ isAuthError e = false) →
    Z.of_nat (i + k) <= maxRetries - 1 →
    match apiCall (i + k)%nat with
    | inr _ => True
    | inl e => isAuthError e = true ∨ Z.of_nat (i + k) = maxRetries - 1
    end →
    let end_ := retryLoop apiCall maxRetries delay fuel i slept last in
    settled end_ = match apiCall (i + k)%nat with
                   | inr r => Returned r
                   | inl e => Thrown (Some e)
                   end ∧
    calls end_ = S (i + k) ∧
    2 * waited end_ = 2 * slept + delay * Z.of_nat k * (2 * Z.of_nat i + Z.of_nat k + 1).
Proof.
  induction k as [|k IH]; intros fuel i slept last Hfuel Hfail Hmax Hend.
  - destruct fuel as [|fuel]; [lia|]. cbn [retryLoop].
    replace (i + 0)%nat with i in * by lia.
    destruct (apiCall i) as [e|r]; [|cbn; split; [done|split; [done|lia]]].
    assert (Hstop : isAuthError e || (Z.of_nat i =? maxRetries - 1) = true).
    { destruct Hend as [->|Heq]; [done|]. apply orb_true_iff. right. lia. }
    rewrite Hstop. cbn. split; [done|]. split; [done|lia].
  - destruct fuel as [|fuel]; [lia|]. cbn [retryLoop].
    destruct (Hfail 0%nat) as (e & He & Hauth); [lia|].
    replace (i + 0)%nat with i in He by lia. rewrite He, Hauth.
    destruct (Z.of_nat i =? maxRetries - 1) eqn:E; [lia|]. cbn [orb].
    replace (i + S k)%nat with (S i + k)%nat in * by lia.
    destruct (IH fuel (S i) (slept + delay * (Z.of_nat i + 1)) (Some e))
      as (Hs & Hc & Hw); [lia| |lia|done|].
    { intros j Hj. replace (S i + j)%nat with (i + S j)%nat by lia.
      apply Hfail. lia. }
    cbv zeta. split; [exact Hs|]. split; [exact Hc|]. rewrite Hw. nia.
Qed.

(** X20: [retryRequest] returns the first successful result: if attempt [k]
    (counted from 0, with [k] below [maxRetries]) succeeds after [k]
    failures that are not authentication errors, the result of that
    attempt is returned after exactly [k + 1] calls, and the loop has
    waited [delay * (1 + 2 + ... + k)] in all. *)
Theorem retry_returns_first_success (apiCall : nat -> ApiError P + R)
    (maxRetries delay : Z) (k : nat) (r : R) :
  Z.of_nat k < maxRetries →
  (∀ j, (j < k)%nat → ∃ e, apiCall j = inl e ∧ isAuthError e = false) →
  apiCall k = inr r →
  let end_ := retryRequest apiCall (Some maxRetries) (Some delay) in
  settled end_ = Returned r ∧ calls end_ = S k ∧
  2 * waited end_ = delay * Z.of_nat k * (Z.of_nat k + 1).
Proof.
  intros Hk Hfail Hok. unfold retryRequest. cbn [default].
  destruct (retryLoop_ends apiCall maxRetries delay k (Z.to_nat maxRetries) 0 0 None)
    as (Hs & Hc & Hw); [lia|exact Hfail|cbn; lia|cbn; by rewrite Hok|].
  cbn [Nat.add] in *. rewrite Hok in Hs. cbv zeta.
  split; [exact Hs|]. split; [exact Hc|]. etransitivity; [exact Hw|lia].
Qed.

(** X21: [retryRequest] gives up on the first authentication error (status
    401 or 403) without retrying, and otherwise after [maxRetries]
    failed attempts: the error of the deciding attempt [k] is thrown
    after exactly [k + 1] calls, with no wait after it. *)
Theorem retry_gives_up (apiCall : nat -> ApiError P + R) (maxRetries delay : Z)
    (k : nat) (e : ApiError P) :
  Z.of_nat k < maxRetries →
  (∀ j, (j < k)%nat → ∃ e', apiCall j = inl e' ∧ isAuthError e' = false) →
  apiCall k = inl e →
  isAuthError e = true ∨ Z.of_nat k = maxRetries - 1 →
  let end_ := retryRequest apiCall (Some maxRetries) (Some delay) in
  settled end_ = Thrown (Some e) ∧ calls end_ = S k ∧
  2 * waited end_ = delay * Z.of_nat k * (Z.of_nat k + 1).
Proof.
  intros Hk Hfail He Hstop. unfold retryRequest. cbn [default].
  destruct (retryLoop_ends apiCall maxRetries delay k (Z.to_nat maxRetries) 0 0 None)
    as (Hs & Hc & Hw); [lia|exact Hfail|cbn; lia|cbn; by rewrite He|].
  cbn [Nat.add] in *. rewrite He in Hs. cbv zeta.
  split; [exact Hs|]. split; [exact Hc|]. etransitivity; [exact Hw|lia].
Qed.

End ApiFacts.

Section ApiMore.
Import Model Api.

Lemma retry_returns_first_success_witness :
  let flaky := fun i : nat =>
    if Nat.ltb i 2
    then inl {| errMessage := "Server error"; errStatus := 500;
                errData := OriginalError (P := unit) None |}
    else inr i in
  let end_ := retryRequest flaky (Some 3) (Some 1000) in
  settled end_ = Returned 2%nat ∧ calls end_ = 3%nat ∧ 2 * waited end_ = 6000.
Proof.
  cbv zeta.
  apply (retry_returns_first_success _ 3 1000 2 2%nat); [lia| |reflexivity].
  intros j Hj. destruct j as [|[|j]]; [eauto..|lia].
Defined.

Lemma retry_gives_up_witness :
  let denied := fun _ : nat =>
    inl (B := nat) {| errMessage := "Forbidden"; errStatus := 403;
                      errData := OriginalError (P := unit) None |} in
  let end_ := retryRequest denied (Some 3) (Some 1000) in
  settled end_ = Thrown (Some {| errMessage := "Forbidden"; errStatus := 403;
                                 errData := OriginalError None |}) ∧
  calls end_ = 1%nat ∧ 2 * waited end_ = 0.
Proof.
  cbv zeta.
  apply (retry_gives_up _ 3 1000 0); [lia| |reflexivity|by left].
  intros j Hj. lia.
Defined.

(** X22: Fetch, then read from the cache: when nothing fresh is cached for
    the key and the call succeeds, its data is returned and cached with
    the time of the request, no other key changes, and any later request
    for the key made less than [ttl] after it returns the same data
    without calling the API. *)
Theorem cache_round_trip {D X : Type} (key : string) (d : D) (ttl ttl' : option Z)
    (now later : Z) (next : X + D) (c : gmap string (Entry D)) :
  (∀ e, c !! key = Some e → default 300000 ttl <= now - timestamp e) →
  later - now < default 300000 ttl' →
  let first := getCachedData (X := X) key (inr d) ttl now c in
  got first = inr d ∧ called first = true ∧
  cache first !! key = Some {| data := d; timestamp := now |} ∧
  (∀ k, k ≠ key → cache first !! k = c !! k) ∧
  getCachedData key next ttl' later (cache first)
  = {| got := inr d; called := false; cache := cache first |}.
Proof.
  intros Hstale Hfresh.
  assert (Hfirst : getCachedData (X := X) key (inr d) ttl now c
                   = {| got := inr d; called := true;
                        cache := <[ key := {| data := d; timestamp := now |} ]> c |}).
  { unfold getCachedData. destruct (c !! key) as [e|] eqn:E; [|done].
    specialize (Hstale e eq_refl). destruct (now - timestamp e <? _) eqn:E'; [lia|done]. }
  cbv zeta. rewrite Hfirst. cbn [got called cache].
  split; [done|]. split; [done|]. split; [apply lookup_insert_eq|].
  split; [intros k Hk; by rewrite lookup_insert_ne|].
  unfold getCachedData. rewrite lookup_insert_eq. cbn [timestamp data].
  destruct (later - now <? default 300000 ttl') eqn:E; [done|lia].
Qed.

Lemma cache_round_trip_witness :
  let first := getCachedData (X := string) "users" (inr 7%nat) None 1000 ∅ in
  got first = inr 7%nat ∧
  getCachedData "users" (inl "offline") None 200000 (cache first)
  = {| got := inr 7%nat; called := false; cache := cache first |}.
Proof.
  cbv zeta.
  destruct (cache_round_trip (X := string) "users" 7%nat None None 1000 200000
              (inl "offline") ∅) as (H1 & _ & _ & _ & H2).
  - intros e He. by rewrite lookup_empty in He.
  - cbn. lia.
  - split; [exact H1|exact H2].
Defined.

(** X23: A failed call never changes the cache, and it surfaces as an error
    only when nothing was ever cached for the key: with an entry for
    the key, fresh or expired, the cached data is returned instead. *)
Theorem cache_falls_back_on_failure {D X : Type} (key : string) (error : X)
    (ttl : option Z) (now : Z) (c : gmap string (Entry D)) :
  cache (getCachedData key (inl error) ttl now c) = c ∧
  got (getCachedData key (inl error) ttl now c)
  = match c !! key with
    | Some e => inr (data e)
    | None => inl error
    end.
Proof.
  unfold getCachedData. destruct (c !! key) as [e|]; [|done].
  by destruct (now - timestamp e <? default 300000 ttl).
Qed.

(** X24: [clearCache] with a non-empty key drops that key's entry and
    nothing else, so that the next request for the key calls the API;
    without a key, or with the empty string as key, it empties the
    whole cache. *)
Theorem clearCache_scope {D : Type} (key : string) (c : gmap string (Entry D)) :
  (key ≠ "" →
   clearCache (Some key) c !! key = None ∧
   (∀ k, k ≠ key → clearCache (Some key) c !! k = c !! k) ∧
   ∀ (X : Type) (result : X + D) ttl now,
     called (getCachedData key result ttl now (clearCache (Some key) c)) = true) ∧
  clearCache None c = ∅ ∧
  clearCache (Some "") c = ∅.
Proof.
  split; [|done]. intros Hkey. unfold clearCache.
  rewrite (truthy_nonempty key Hkey). cbn [Js.to_text].
  split; [apply lookup_delete_eq|]. split; [intros k Hk; by rewrite lookup_delete_ne|].
  intros X result ttl now. unfold getCachedData. rewrite lookup_delete_eq.
  by destruct result.
Qed.

Lemma clearCache_scope_witness :
  let c := <[ "users" := {| data := 7%nat; timestamp := 0 |} ]>
             (<[ "chats" := {| data := 3%nat; timestamp := 0 |} ]> ∅) in
  "users" ≠ "" ∧
  clearCache (Some "users") c !! "users" = None ∧
  clearCache (Some "users") c !! "chats" = c !! "chats".
Proof.
  cbv zeta. assert (H : "users" ≠ "") by discriminate. split; [exact H|].
  destruct (clearCache_scope "users"
              (<[ "users" := {| data := 7%nat; timestamp := 0 |} ]>
                 (<[ "chats" := {| data := 3%nat; timestamp := 0 |} ]> ∅)))
    as [Hc _].
  destruct (Hc H) as (H1 & H2 & _). split; [exact H1|]. apply H2. discriminate.
Defined.


Lemma post_fails (now : Z) (oid me : string) (b : Messages.SendBody) (db : Mongoose.Db) :
  Messages.bodyRecipient b = None ∨ Messages.bodyContent b = None ∨
  Mongoose.connected db = false →
  Messages.post now oid me b db = (Messages.server_error, db).
Proof.
  intros H. unfold Messages.post, Mongoose.try_catch, Mongoose.bind, Mongoose.save,
    Mongoose.validate.
  destruct b as [[r|] [c|] bt];
    cbn [Messages.bodyRecipient Messages.bodyContent Messages.bodyType
         draftRecipient draftContent] in *; try done.
  destruct H as [H|[H|H]]; try discriminate.
  unfold Mongoose.bind, Mongoose.online. by rewrite H.
Qed.

(** X26: The client against the send route: [createMessage] resolves with
    status 201 and the stored message when the request has a recipient
    and a content and the database is reachable; in every other case it
    throws an [ApiError] with status 500 and message [Server error],
    which the client does not recognise as a validation error (its list
    of validation errors is empty) nor as an authentication error, and
    which is shown to the user as [Server error]. *)
Theorem createMessage_outcome (now : Z) (oid me : string) (b : Messages.SendBody)
    (db : Mongoose.Db) :
  (∀ r c, Messages.bodyRecipient b = Some r → Messages.bodyContent b = Some c →
          Mongoose.connected db = true →
          ∃ d p, createMessage now oid me b db = inr (Some d, 201%nat) ∧
                 payload d = MessageJson p ∧
                 sender (doc p) = me ∧ recipient (doc p) = r ∧ content (doc p) = c) ∧
  (Messages.bodyRecipient b = None ∨ Messages.bodyContent b = None ∨
   Mongoose.connected db = false →
   ∃ e, createMessage now oid me b db = inl e ∧
        errStatus e = 500%nat ∧ errMessage e = "Server error" ∧
        isValidationError e = false ∧ getValidationErrors e = [] ∧
        isAuthError e = false ∧ formatErrorMessage e = "Server error").
Proof.
  split.
  - intros r c Hr Hc Hdb. destruct b as [br bc bt]. cbn in Hr, Hc. subst br bc.
    unfold createMessage. rewrite post_saved by done. cbn [fst].
    eexists _, _. split; [reflexivity|]. cbn. done.
  - intros H. unfold createMessage. rewrite post_fails by done.
    eexists. split; [reflexivity|]. cbn. done.
Qed.

Lemma createMessage_outcome_witness :
  (∃ d, createMessage 9 "m3" "a"
          {| Messages.bodyRecipient := Some "b"; Messages.bodyContent := Some "hey";
             Messages.bodyType := None |} Sample.two = inr (Some d, 201%nat)) ∧
  ∃ e, createMessage 9 "m3" "a"
         {| Messages.bodyRecipient := Some "b"; Messages.bodyContent := None;
            Messages.bodyType := None |} Sample.two = inl e ∧
       formatErrorMessage e = "Server error".
Proof.
  split.
  - destruct (createMessage_outcome 9 "m3" "a"
                {| Messages.bodyRecipient := Some "b"; Messages.bodyContent := Some "hey";
                   Messages.bodyType := None |} Sample.two) as [Hok _].
    destruct (Hok "b" "hey" eq_refl eq_refl eq_refl) as (d & p & Hd & _).
    by exists d.
  - destruct (createMessage_outcome 9 "m3" "a"
                {| Messages.bodyRecipient := Some "b"; Messages.bodyContent := None;
                   Messages.bodyType := None |} Sample.two) as [_ Herr].
    destruct Herr as (e & He & _ & _ & _ & _ & _ & Hf); [right; by left|].
    exists e. split; [exact He|exact Hf].
Defined.

(** X27: A send that cannot succeed is retried in full: with the default
    settings, a [createMessage] that fails (for a missing field as for an
    unreachable database) is sent three times, with waits of 1000 and
    2000 ms in between, before [Server error] is thrown. *)
Theorem failed_send_is_retried (now : Z) (oid me : string) (b : Messages.SendBody)
    (db : Mongoose.Db) :
  Messages.bodyRecipient b = None ∨ Messages.bodyContent b = None ∨
  Mongoose.connected db = false →
  let end_ := retryRequest (fun _ => createMessage now oid me b db) None None in
  calls end_ = 3%nat ∧ waited end_ = 3000 ∧
  ∃ e, settled end_ = Thrown (Some e) ∧ errMessage e = "Server error" ∧
       errStatus e = 500%nat.
Proof.
  intros H. unfold createMessage. rewrite post_fails by done.
  cbn. split; [done|]. split; [done|]. eexists. split; [reflexivity|]. done.
Qed.

Lemma failed_send_is_retried_witness :
  let b := {| Messages.bodyRecipient := None; Messages.bodyContent := Some "hey";
              Messages.bodyType := None |} in
  Messages.bodyRecipient b = None ∧
  calls (retryRequest (fun _ => createMessage 9 "m3" "a" b Sample.two) None None) = 3%nat.
Proof.
  cbv zeta. split; [reflexivity|].
  exact (proj1 (failed_send_is_retried 9 "m3" "a"
                  {| Messages.bodyRecipient := None; Messages.bodyContent := Some "hey";
                     Messages.bodyType := None |} Sample.two (or_introl eq_refl))).
Defined.

End ApiMore.
